(** * Outline proxy controller: the netlink network monitor

    A shallow embedding of [tools/outline_proxy_controller/network_monitor.h]
    and [network_monitor.cpp]: the bit-flag enumeration [NetworkChangeEvent]
    with its operators and [to_string], and the coroutine
    [NetworkMonitor::WaitForChangeEvent] that walks netlink datagrams with
    [NLMSG_OK] / [NLMSG_NEXT]. *)

From Stdlib Require Import ZArith Bool String Ascii Lia.
From Stdlib Require Import List Permutation.
From Stdlib Require Import Init.Byte.
Import ListNotations.

Local Open Scope Z_scope.

(** ** The flag enumeration (network_monitor.h) *)

Module Event.

(** [enum class NetworkChangeEvent : unsigned int]: a value of the enumeration
    is its underlying unsigned integer. *)
Definition NetworkChangeEvent : Type := Z.

Definition unsigned_int_range (v : Z) : Prop := 0 <= v < 2 ^ 32.

Definition kNone : NetworkChangeEvent := 0.            (* 0b00000000 *)
Definition kNicChanged : NetworkChangeEvent := 1.      (* 0b00000001 *)
Definition kAddressChanged : NetworkChangeEvent := 2.  (* 0b00000010 *)
Definition kRouteChanged : NetworkChangeEvent := 4.    (* 0b00000100 *)

(** [operator|]: the OR of the two underlying integers. *)
Definition op_or (lhs rhs : NetworkChangeEvent) : NetworkChangeEvent :=
  Z.lor lhs rhs.

(** [operator&]: the AND of the two underlying integers. *)
Definition op_and (lhs rhs : NetworkChangeEvent) : NetworkChangeEvent :=
  Z.land lhs rhs.

(** [operator|=] assigns [lhs | rhs] to [lhs]; the new value of [lhs]. *)
Definition op_or_assign (lhs rhs : NetworkChangeEvent) : NetworkChangeEvent :=
  op_or lhs rhs.

(** The membership test the header prescribes: [(evt & flag) == flag]. *)
Definition has_flag (evt flag : NetworkChangeEvent) : bool :=
  op_and evt flag =? flag.

Definition string_empty (s : string) : bool :=
  match s with EmptyString => true | String _ _ => false end.

(** [std::string to_string(NetworkChangeEvent evt)]. *)
Definition to_string (evt : NetworkChangeEvent) : string :=
  if evt =? kNone then "None"%string
  else
    let result := ""%string in
    let result :=
      if has_flag evt kNicChanged then (result ++ "NIC")%string else result in
    let result :=
      if has_flag evt kAddressChanged
      then (result ++ (if string_empty result then "IP" else " IP"))%string
      else result in
    let result :=
      if has_flag evt kRouteChanged
      then (result ++ (if string_empty result then "Route" else " Route"))%string
      else result in
    result.

(** The tokens of the flags set in [evt], in the order interface, address,
    route; what the rendering is compared with. *)
Definition tokens (evt : NetworkChangeEvent) : list string :=
  (if has_flag evt kNicChanged then ["NIC"%string] else []) ++
  (if has_flag evt kAddressChanged then ["IP"%string] else []) ++
  (if has_flag evt kRouteChanged then ["Route"%string] else []).

(** The value with exactly the chosen named flags. *)
Definition of_flags (nic addr route : bool) : NetworkChangeEvent :=
  op_or (if nic then kNicChanged else kNone)
    (op_or (if addr then kAddressChanged else kNone)
           (if route then kRouteChanged else kNone)).

Definition space : ascii := " "%char.

Fixpoint string_last (s : string) : option ascii :=
  match s with
  | EmptyString => None
  | String c EmptyString => Some c
  | String _ s' => string_last s'
  end.

Definition string_head (s : string) : option ascii :=
  match s with EmptyString => None | String c _ => Some c end.

(** Number of spaces in [s]. *)
Fixpoint count_spaces (s : string) : nat :=
  match s with
  | EmptyString => 0%nat
  | String c s' => ((if Ascii.eqb c space then 1 else 0) + count_spaces s')%nat
  end.

End Event.

(** ** Netlink records in the receive buffer (<linux/netlink.h>) *)

Module Netlink.

(** Message types of <linux/netlink.h> and <linux/rtnetlink.h>. *)
Definition NLMSG_NOOP : Z := 1.
Definition NLMSG_ERROR : Z := 2.
Definition NLMSG_DONE : Z := 3.
Definition NLMSG_OVERRUN : Z := 4.
Definition RTM_NEWLINK : Z := 16.
Definition RTM_DELLINK : Z := 17.
Definition RTM_NEWADDR : Z := 20.
Definition RTM_DELADDR : Z := 21.
Definition RTM_NEWROUTE : Z := 24.
Definition RTM_DELROUTE : Z := 25.

(** Wrap-around of [unsigned int] ([__u32]) and of [std::size_t]. *)
Definition uint (z : Z) : Z := z mod 2 ^ 32.
Definition size_t (z : Z) : Z := z mod 2 ^ 64.

(** [sizeof(struct nlmsghdr)]: [__u32 nlmsg_len; __u16 nlmsg_type;
    __u16 nlmsg_flags; __u32 nlmsg_seq; __u32 nlmsg_pid]. *)
Definition sizeof_nlmsghdr : Z := 16.

Definition NLMSG_ALIGNTO : Z := 4.

(** [#define NLMSG_ALIGN(len) (((len)+NLMSG_ALIGNTO-1) & ~(NLMSG_ALIGNTO-1))]
    on an [unsigned int] argument. *)
Definition NLMSG_ALIGN (len : Z) : Z :=
  Z.land (uint (len + NLMSG_ALIGNTO - 1)) (uint (Z.lnot (NLMSG_ALIGNTO - 1))).

(** [#define NLMSG_HDRLEN ((int) NLMSG_ALIGN(sizeof(struct nlmsghdr)))]. *)
Definition NLMSG_HDRLEN : Z := NLMSG_ALIGN sizeof_nlmsghdr.

(** The receive buffer [std::array<std::byte, kRecvBufferSize>]: its bytes in
    order; [msg] pointers are offsets from [buf.data()]. *)
Definition buffer : Type := list byte.

Definition byte_val (b : byte) : Z := Z.of_N (Byte.to_N b).

(** The [n] first bytes of [l], when it has that many. *)
Fixpoint take_bytes (n : nat) (l : list byte) : option (list byte) :=
  match n with
  | O => Some []
  | S n' =>
      match l with
      | [] => None
      | b :: l' => option_map (cons b) (take_bytes n' l')
      end
  end.

(** Reading [n] bytes at offset [off]; [None] when the read leaves the array. *)
Definition load_bytes (buf : buffer) (off : Z) (n : nat) : option (list byte) :=
  if off <? 0 then None else take_bytes n (skipn (Z.to_nat off) buf).

(** Host byte order is little-endian. *)
Fixpoint le_value (bs : list byte) : Z :=
  match bs with
  | [] => 0
  | b :: bs' => byte_val b + 256 * le_value bs'
  end.

(** Two's complement reading of a 32-bit pattern as [int]. *)
Definition to_int (v : Z) : Z := if v <? 2 ^ 31 then v else v - 2 ^ 32.

Definition load_u16 (buf : buffer) (off : Z) : option Z :=
  option_map le_value (load_bytes buf off 2).
Definition load_u32 (buf : buffer) (off : Z) : option Z :=
  option_map le_value (load_bytes buf off 4).
Definition load_int (buf : buffer) (off : Z) : option Z :=
  option_map (fun bs => to_int (le_value bs)) (load_bytes buf off 4).

(** Fields of the [nlmsghdr] at offset [msg], and of the [nlmsgerr] behind
    [NLMSG_DATA(msg)] (its first field is [int error]). *)
Definition nlmsg_len (buf : buffer) (msg : Z) : option Z := load_u32 buf msg.
Definition nlmsg_type (buf : buffer) (msg : Z) : option Z := load_u16 buf (msg + 4).
Definition NLMSG_DATA (msg : Z) : Z := msg + NLMSG_HDRLEN.
Definition nlmsgerr_error (buf : buffer) (msg : Z) : option Z :=
  load_int buf (NLMSG_DATA msg).

(** [#define NLMSG_OK(nlh,len) ((len) >= (int)sizeof(struct nlmsghdr) &&
      (nlh)->nlmsg_len >= sizeof(struct nlmsghdr) && (nlh)->nlmsg_len <= (len))]
    with [len] a [std::size_t]; [&&] reads the header only when the first test
    passes.  [None]: the header read leaves the array. *)
Definition NLMSG_OK (buf : buffer) (msg len : Z) : option bool :=
  if len >=? sizeof_nlmsghdr then
    match nlmsg_len buf msg with
    | None => None
    | Some l => Some ((l >=? sizeof_nlmsghdr) && (l <=? len))
    end
  else Some false.

(** [NLMSG_NEXT(nlh,len)] is the comma expression that first does
    [(len) -= NLMSG_ALIGN((nlh)->nlmsg_len)] and then yields the pointer
    [nlh] moved forward by [NLMSG_ALIGN((nlh)->nlmsg_len)] bytes.  Here: the
    new [msg] and the new [len], for a record of declared length [l]; [len]
    is a [std::size_t], so the subtraction wraps. *)
Definition NLMSG_NEXT (l msg len : Z) : Z * Z :=
  (msg + NLMSG_ALIGN l, size_t (len - NLMSG_ALIGN l)).

(** A record as a test double lays it out: header, payload, padding up to the
    alignment.  Used to write datagrams down; the monitor never builds one. *)
Definition le_bytes (n : nat) (v : Z) : list byte :=
  map (fun k => match Byte.of_N (Z.to_N ((v / 256 ^ Z.of_nat k) mod 256)) with
                | Some b => b
                | None => x00
                end) (seq 0 n).

Definition record_of (type : Z) (payload : list byte) : list byte :=
  let l := sizeof_nlmsghdr + Z.of_nat (length payload) in
  le_bytes 4 l ++ le_bytes 2 type ++ le_bytes 2 0 ++ le_bytes 4 0 ++ le_bytes 4 0
    ++ payload ++ repeat x00 (Z.to_nat (NLMSG_ALIGN l - l)).

End Netlink.

(** ** The monitor (network_monitor.cpp) *)

Module Monitor.
Import Event Netlink.

Definition kRecvBufferSize : Z := 4096.

(** How one pass through the [switch] ends. *)
Inductive switch_result : Type :=
| GotoEndOfMultiPartMsg
| Throw (error : Z)
| Break (received_events : NetworkChangeEvent)
| SwitchOutOfBounds.

(** [switch (msg->nlmsg_type) { ... }] *)
Definition dispatch (buf : buffer) (msg : Z)
    (received_events : NetworkChangeEvent) : switch_result :=
  match nlmsg_type buf msg with
  | None => SwitchOutOfBounds
  | Some ty =>
      if ty =? NLMSG_DONE then GotoEndOfMultiPartMsg
      else if ty =? NLMSG_ERROR then
        match nlmsgerr_error buf msg with
        | None => SwitchOutOfBounds
        | Some err => Throw err
        end
      else if ty =? RTM_NEWLINK then
        Break (op_or_assign received_events kNicChanged)
      else if (ty =? RTM_NEWADDR) || (ty =? RTM_DELADDR) then
        Break (op_or_assign received_events kAddressChanged)
      else if (ty =? RTM_NEWROUTE) || (ty =? RTM_DELROUTE) then
        Break (op_or_assign received_events kRouteChanged)
      else Break received_events
  end.

(** How the [for] loop over one datagram ends. *)
Inductive walk_result : Type :=
| WalkEnd (received_events : NetworkChangeEvent)
    (* the loop condition failed, or [goto EndOfMultiPartMsg] *)
| WalkThrow (error : Z)
    (* [throw std::system_error{err->error, ...}] *)
| WalkOutOfBounds
    (* a read outside the array *)
| WalkSpins.
    (* [NLMSG_NEXT] advanced by zero bytes: the same iteration repeats forever *)

(** [for (msg = buf.data(); NLMSG_OK(msg, len); msg = NLMSG_NEXT(msg, len))].
    An advance of zero bytes leaves [msg] and [len] as they were and [|=] is
    idempotent, so the loop repeats that iteration for ever: [WalkSpins].
    [None] is the model running out of [fuel]. *)
Fixpoint walk_fuel (fuel : nat) (buf : buffer) (msg len : Z)
    (received_events : NetworkChangeEvent) : option walk_result :=
  match NLMSG_OK buf msg len with
  | None => Some WalkOutOfBounds
  | Some false => Some (WalkEnd received_events)
  | Some true =>
      match dispatch buf msg received_events with
      | GotoEndOfMultiPartMsg => Some (WalkEnd received_events)
      | Throw err => Some (WalkThrow err)
      | SwitchOutOfBounds => Some WalkOutOfBounds
      | Break received_events' =>
          match nlmsg_len buf msg with
          | None => Some WalkOutOfBounds
          | Some l =>
              if NLMSG_ALIGN l =? 0 then Some WalkSpins
              else
                match fuel with
                | O => None
                | S fuel' =>
                    let '(msg', len') := NLMSG_NEXT l msg len in
                    walk_fuel fuel' buf msg' len' received_events'
                end
          end
      end
  end.

(** Every advance is of at least one header, so the array is left after at
    most [length buf] iterations; see [walk_fuel_enough]. *)
Definition walk (buf : buffer) (msg len : Z)
    (received_events : NetworkChangeEvent) : walk_result :=
  match walk_fuel (length buf) buf msg len received_events with
  | Some r => r
  | None => WalkSpins
  end.

(** The loop variables at the head of the [for] loop: [msg], [len] and
    [received_events]. *)
Definition cursor : Type := (Z * Z * NetworkChangeEvent)%type.

(** One iteration that comes back to the head of the loop: the record at
    [msg] passes [NLMSG_OK], its [switch] ends in [break], and [NLMSG_NEXT]
    moves on.  Yields the type code dispatched and the next loop variables. *)
Definition iteration (buf : buffer) (c : cursor) : option (Z * cursor) :=
  let '(msg, len, received_events) := c in
  match NLMSG_OK buf msg len, nlmsg_type buf msg,
        dispatch buf msg received_events, nlmsg_len buf msg with
  | Some true, Some ty, Break received_events', Some l =>
      if NLMSG_ALIGN l =? 0 then None
      else
        let '(msg', len') := NLMSG_NEXT l msg len in
        Some (ty, (msg', len', received_events'))
  | _, _, _, _ => None
  end.

(** The type codes of the records that the walk classifies (their [switch]
    ends in [break] and the loop moves on), in the order it meets them. *)
Fixpoint walk_types_fuel (fuel : nat) (buf : buffer) (msg len : Z) : list Z :=
  match iteration buf (msg, len, kNone) with
  | Some (ty, (msg', len', _)) =>
      ty :: match fuel with
            | O => []
            | S fuel' => walk_types_fuel fuel' buf msg' len'
            end
  | None => []
  end.

Definition walk_types (buf : buffer) (msg len : Z) : list Z :=
  walk_types_fuel (length buf) buf msg len.

(** What the socket will complete the successive [async_receive] calls with. *)
Inductive completion : Type :=
| Received (dgram : list byte)
| ReceiveError (ec : Z).

Definition socket : Type := list completion.

(** [async_receive(boost::asio::buffer(buf))] completing with [dgram]: the
    datagram, cut to the capacity, overwrites the start of the array; the
    number of bytes written is the [len] the coroutine gets. *)
Definition async_receive (buf : buffer) (dgram : list byte) : buffer * Z :=
  let n := Nat.min (length dgram) (length buf) in
  (firstn n dgram ++ skipn n buf, Z.of_nat n).

(** How a call of [WaitForChangeEvent] ends. *)
Inductive wait_result : Type :=
| Returned (received_events : NetworkChangeEvent) (pending : socket)
    (* [co_return received_events] *)
| SystemError (error : Z)
    (* the [std::system_error] thrown for an [NLMSG_ERROR] record *)
| ReceiveFailed (ec : Z)
    (* [async_receive] threw *)
| Suspended
    (* the coroutine awaits a datagram that has not come *)
| OutOfBounds
| Spins.

(** The [do { ... } while (received_events == kNone)] loop, entered with the
    array [buf] and the accumulator [received_events]. *)
Fixpoint wait_loop (buf : buffer) (received_events : NetworkChangeEvent)
    (netlink_socket_ : socket) : wait_result :=
  match netlink_socket_ with
  | [] => Suspended
  | ReceiveError ec :: _ => ReceiveFailed ec
  | Received dgram :: pending =>
      let '(buf', len) := async_receive buf dgram in
      match walk buf' 0 len received_events with
      | WalkEnd received_events' =>
          if received_events' =? kNone
          then wait_loop buf' received_events' pending
          else Returned received_events' pending
      | WalkThrow err => SystemError err
      | WalkOutOfBounds => OutOfBounds
      | WalkSpins => Spins
      end
  end.

(** [NetworkMonitor::WaitForChangeEvent()].  [buf] is the array of the call,
    with whatever bytes it holds before the first receive; the accumulator
    starts as [kNone]. *)
Definition WaitForChangeEvent (buf : buffer) (netlink_socket_ : socket)
    : wait_result :=
  let received_events := kNone in
  wait_loop buf received_events netlink_socket_.

(** The type codes of the records that a call classifies, over all its
    receives. *)
Fixpoint wait_types (buf : buffer) (received_events : NetworkChangeEvent)
    (netlink_socket_ : socket) : list Z :=
  match netlink_socket_ with
  | [] => []
  | ReceiveError _ :: _ => []
  | Received dgram :: pending =>
      let '(buf', len) := async_receive buf dgram in
      walk_types buf' 0 len ++
      match walk buf' 0 len received_events with
      | WalkEnd received_events' =>
          if received_events' =? kNone
          then wait_types buf' received_events' pending
          else []
      | _ => []
      end
  end.

(** The flag a type code stands for, in the words of the specification's
    table: NEW-LINK is an interface change, NEW-ADDR and DEL-ADDR an address
    change, NEW-ROUTE and DEL-ROUTE a route change, anything else nothing. *)
Definition table_flag (ty : Z) : NetworkChangeEvent :=
  if ty =? RTM_NEWLINK then kNicChanged
  else if ty =? RTM_NEWADDR then kAddressChanged
  else if ty =? RTM_DELADDR then kAddressChanged
  else if ty =? RTM_NEWROUTE then kRouteChanged
  else if ty =? RTM_DELROUTE then kRouteChanged
  else kNone.

(** OR of the table's flags over a list of type codes. *)
Definition union_flags (types : list Z) : NetworkChangeEvent :=
  fold_right (fun ty acc => op_or (table_flag ty) acc) kNone types.

(** An array of the capacity, all zero. *)
Definition zero_buffer : buffer := repeat x00 (Z.to_nat kRecvBufferSize).

(** *** Where a walk gets to *)

(** [reaches buf c tys c']: from the loop head [c] the walk comes to the loop
    head [c'], having dispatched records of the types [tys] on the way. *)
Inductive reaches (buf : buffer) : cursor -> list Z -> cursor -> Prop :=
| reaches_here (c : cursor) : reaches buf c [] c
| reaches_next (c c' c'' : cursor) (tys : list Z) (ty : Z) :
    reaches buf c tys c' ->
    iteration buf c' = Some (ty, c'') ->
    reaches buf c (tys ++ [ty]) c''.

(** [receives buf sock buf' sock']: a call entered with the array [buf] and
    the socket [sock] comes to the top of the [do] loop with [buf'] and
    [sock'] after receive cycles that all left the accumulator at [kNone]. *)
Inductive receives (buf : buffer) (sock : socket) : buffer -> socket -> Prop :=
| receives_first : receives buf sock buf sock
| receives_again (buf1 buf2 : buffer) (dgram : list byte) (pending : socket)
    (len : Z) :
    receives buf sock buf1 (Received dgram :: pending) ->
    async_receive buf1 dgram = (buf2, len) ->
    walk buf2 0 len kNone = WalkEnd kNone ->
    receives buf sock buf2 pending.

(** Two arrays with the same [n] first bytes. *)
Definition agree_upto (n : Z) (buf1 buf2 : buffer) : Prop :=
  firstn (Z.to_nat n) buf1 = firstn (Z.to_nat n) buf2.

(** A completion whose datagram, if it brings one, has a length that is a
    multiple of the alignment, as every message laid out with [NLMSG_ALIGN]
    has. *)
Definition whole_words (c : completion) : Prop :=
  match c with
  | Received dgram => Z.of_nat (length dgram) mod NLMSG_ALIGNTO = 0
  | ReceiveError _ => True
  end.

(** *** Records as byte ranges *)

(** A byte range that is exactly one record: it holds a header, declares a
    length of at least the header and at most its own, and ends at the
    alignment boundary after the declared length. *)
Definition well_formed (r : list byte) : bool :=
  match nlmsg_len r 0 with
  | Some l =>
      (sizeof_nlmsghdr <=? l) && (l <=? Z.of_nat (length r))
      && (NLMSG_ALIGN l =? Z.of_nat (length r))
  | None => false
  end.

Definition type_of (r : list byte) : Z :=
  match nlmsg_type r 0 with Some ty => ty | None => 0 end.

(** A well-formed record that is neither the DONE sentinel nor an ERROR. *)
Definition ordinary (r : list byte) : bool :=
  well_formed r && negb (type_of r =? NLMSG_DONE)
  && negb (type_of r =? NLMSG_ERROR).

End Monitor.

(** ** Datagrams used as concrete inputs *)

Module Samples.
Import Event Netlink Monitor.

Definition new_link : list byte := record_of RTM_NEWLINK [].
Definition new_addr : list byte := record_of RTM_NEWADDR [].
Definition new_route : list byte := record_of RTM_NEWROUTE [].
Definition noop : list byte := record_of NLMSG_NOOP [].
Definition done : list byte := record_of NLMSG_DONE [].
Definition error_13 : list byte :=
  record_of NLMSG_ERROR (le_bytes 4 13 ++ done).

(** A DONE record with four bytes of payload, a NEW-ROUTE record behind it,
    and a closing DONE record: 52 bytes. *)
Definition done_then_route : list byte :=
  record_of NLMSG_DONE (le_bytes 4 0) ++ new_route ++ done.

(** A datagram of 17 bytes holding one NEW-LINK record that declares all 17
    bytes as its length. *)
Definition odd_new_link : list byte :=
  le_bytes 4 17 ++ le_bytes 2 RTM_NEWLINK ++ repeat x00 11.

(** A full array of 256 NOOP records. *)
Definition noop_4096 : list byte := concat (repeat noop 256).

(** A datagram of 29 bytes holding one NEW-LINK record that declares all 29
    bytes as its length. *)
Definition odd_new_link_29 : list byte :=
  le_bytes 4 29 ++ le_bytes 2 RTM_NEWLINK ++ repeat x00 23.

End Samples.

(** ** Construction and destruction of the monitor (network_monitor.cpp) *)

Module Lifecycle.

(** Multicast groups of <linux/rtnetlink.h>; address family and protocol of
    <sys/socket.h> and <linux/netlink.h>. *)
Definition RTMGRP_LINK : Z := 1.
Definition RTMGRP_IPV4_IFADDR : Z := 16.
Definition RTMGRP_IPV4_ROUTE : Z := 64.
Definition RTMGRP_IPV6_IFADDR : Z := 256.
Definition RTMGRP_IPV6_ROUTE : Z := 1024.
Definition AF_NETLINK : Z := 16.
Definition NETLINK_ROUTE : Z := 0.

(** [struct sockaddr_nl]. *)
Record sockaddr_nl : Type := {
  nl_family : Z;
  nl_pad : Z;
  nl_pid : Z;
  nl_groups : Z
}.

(** What the constructor and the destructor do to the outside, in order: the
    calls on [netlink_socket_] and on [logger]. *)
Inductive effect : Type :=
| SocketOpen (family protocol : Z)
| SocketBind (sa : sockaddr_nl)
| LoggerInfo (msg : string).

(** The operating system's answers: the error code with which [open] and
    [bind] throw, or [None] when they succeed. *)
Record system : Type := {
  open_error : Z -> Z -> option Z;
  bind_error : sockaddr_nl -> option Z
}.

(** [std::memset(&sa, 0, sizeof(sa))]. *)
Definition zeroed : sockaddr_nl :=
  {| nl_family := 0; nl_pad := 0; nl_pid := 0; nl_groups := 0 |}.

(** The address the constructor fills in. *)
Definition monitor_address : sockaddr_nl :=
  let sa := zeroed in
  let sa := {| nl_family := AF_NETLINK; nl_pad := nl_pad sa;
               nl_pid := nl_pid sa; nl_groups := nl_groups sa |} in
  {| nl_family := nl_family sa; nl_pad := nl_pad sa; nl_pid := nl_pid sa;
     nl_groups :=
       Z.lor (Z.lor (Z.lor (Z.lor RTMGRP_LINK RTMGRP_IPV4_IFADDR)
                       RTMGRP_IPV4_ROUTE) RTMGRP_IPV6_IFADDR)
         RTMGRP_IPV6_ROUTE |}.

(** [NetworkMonitor::NetworkMonitor]: the effects of the body, and the error
    code of the exception that leaves it, if one does. *)
Definition construct (sys : system) : list effect * option Z :=
  let sa := monitor_address in
  match open_error sys AF_NETLINK NETLINK_ROUTE with
  | Some ec => ([SocketOpen AF_NETLINK NETLINK_ROUTE], Some ec)
  | None =>
      match bind_error sys sa with
      | Some ec => ([SocketOpen AF_NETLINK NETLINK_ROUTE; SocketBind sa], Some ec)
      | None =>
          ([SocketOpen AF_NETLINK NETLINK_ROUTE; SocketBind sa;
            LoggerInfo "network monitor initialized"], None)
      end
  end.

(** [NetworkMonitor::~NetworkMonitor]. *)
Definition destruct_monitor : list effect :=
  [LoggerInfo "network monitor destroyed"].

(** The life of one monitor: construction, and destruction when there is an
    object to destroy. *)
Definition lifetime (sys : system) : list effect :=
  let '(effects, thrown) := construct sys in
  match thrown with
  | Some _ => effects
  | None => effects ++ destruct_monitor
  end.

(** The lines written to the log. *)
Definition log_lines (effects : list effect) : list string :=
  flat_map (fun e => match e with LoggerInfo msg => [msg] | _ => [] end)
    effects.

End Lifecycle.

(** ** The records of a datagram, one after the other *)

Module Records.
Import Event Netlink Monitor.

(** What the [switch] makes of a datagram given as the list of its records:
    the records are taken in order; DONE ends the pass, ERROR ends it with
    the error field of the record, any other record adds the flag of its
    type. *)
Fixpoint classify (rs : list (list byte))
    (received_events : NetworkChangeEvent) : walk_result :=
  match rs with
  | [] => WalkEnd received_events
  | r :: rs' =>
      if type_of r =? NLMSG_DONE then WalkEnd received_events
      else if type_of r =? NLMSG_ERROR then
        match nlmsgerr_error r 0 with
        | Some err => WalkThrow err
        | None => WalkOutOfBounds
        end
      else classify rs' (op_or received_events (table_flag (type_of r)))
  end.

End Records.

(** * Properties *)

(** ** The flag enumeration *)

Module EventFacts.
Import Event.

Lemma land_pow2 (v n : Z) :
  0 <= n -> Z.land v (2 ^ n) = if Z.testbit v n then 2 ^ n else 0.
Proof.
  intros Hn. apply Z.bits_inj'. intros m Hm.
  rewrite Z.land_spec, Z.pow2_bits_eqb by assumption.
  destruct (Z.eqb_spec n m) as [->|Hne].
  - destruct (Z.testbit v m); simpl.
    + now rewrite Z.pow2_bits_true.
    + now rewrite Z.bits_0.
  - rewrite andb_false_r.
    destruct (Z.testbit v n).
    + rewrite Z.pow2_bits_false; auto.
    + now rewrite Z.bits_0.
Qed.

Lemma has_flag_testbit (v n : Z) :
  0 <= n -> has_flag v (2 ^ n) = Z.testbit v n.
Proof.
  intros Hn. unfold has_flag, op_and. rewrite land_pow2 by assumption.
  destruct (Z.testbit v n).
  - apply Z.eqb_refl.
  - apply Z.eqb_neq. pose proof (Z.pow_pos_nonneg 2 n). lia.
Qed.

Lemma has_flag_nic v : has_flag v kNicChanged = Z.testbit v 0.
Proof. exact (has_flag_testbit v 0 (Z.le_refl 0)). Qed.

Lemma has_flag_address v : has_flag v kAddressChanged = Z.testbit v 1.
Proof. apply (has_flag_testbit v 1). lia. Qed.

Lemma has_flag_route v : has_flag v kRouteChanged = Z.testbit v 2.
Proof. apply (has_flag_testbit v 2). lia. Qed.

(** The operators stay inside [unsigned int]. *)
Lemma op_or_range a b :
  unsigned_int_range a -> unsigned_int_range b -> unsigned_int_range (op_or a b).
Proof.
  unfold unsigned_int_range, op_or. intros [Ha Ha'] [Hb Hb']. split.
  - now apply Z.lor_nonneg.
  - destruct (Z.eq_dec (Z.lor a b) 0) as [->|Hnz]; [reflexivity|].
    apply Z.log2_lt_pow2; [pose proof (proj2 (Z.lor_nonneg a b) (conj Ha Hb)); lia|].
    rewrite Z.log2_lor by assumption.
    apply Z.max_lub_lt.
    + destruct (Z.eq_dec a 0) as [->|]; [reflexivity|].
      apply Z.log2_lt_pow2; lia.
    + destruct (Z.eq_dec b 0) as [->|]; [reflexivity|].
      apply Z.log2_lt_pow2; lia.
Qed.

(** Whatever the value, a non-zero one renders as its tokens joined by one
    space. *)
Lemma to_string_tokens v :
  v <> kNone -> to_string v = String.concat " " (tokens v).
Proof.
  intros Hv. unfold to_string, tokens.
  destruct (Z.eqb_spec v kNone) as [E|_]; [contradiction|].
  destruct (has_flag v kNicChanged), (has_flag v kAddressChanged),
    (has_flag v kRouteChanged); reflexivity.
Qed.

Lemma tokens_of_flags nic addr route :
  tokens (of_flags nic addr route) =
  (if nic then ["NIC"%string] else []) ++
  (if addr then ["IP"%string] else []) ++
  (if route then ["Route"%string] else []).
Proof. destruct nic, addr, route; reflexivity. Qed.

(** C8: [operator|] is commutative, associative and idempotent, and [kNone]
    is neutral for it. *)
Theorem op_or_laws (a b c : NetworkChangeEvent) :
  op_or a b = op_or b a /\
  op_or (op_or a b) c = op_or a (op_or b c) /\
  op_or a a = a /\
  op_or a kNone = a.
Proof.
  unfold op_or, kNone. repeat split.
  - apply Z.lor_comm.
  - symmetry. apply Z.lor_assoc.
  - apply Z.lor_diag.
  - apply Z.lor_0_r.
Qed.

(** C7: [to_string] gives "None" for [kNone]; for each non-zero combination of
    the three named flags it gives the tokens of the flags that are set, in
    the order NIC, IP, Route, joined by single spaces, with no space at
    either end; and [to_string (kNicChanged | kAddressChanged)] is "NIC IP". *)
Theorem to_string_spec :
  to_string kNone = "None"%string /\
  (forall nic addr route : bool,
      of_flags nic addr route <> kNone ->
      let toks := (if nic then ["NIC"%string] else []) ++
                  (if addr then ["IP"%string] else []) ++
                  (if route then ["Route"%string] else []) in
      let s := to_string (of_flags nic addr route) in
      s = String.concat " " toks /\
      string_head s <> Some space /\
      string_last s <> Some space /\
      count_spaces s = (length toks - 1)%nat /\
      Forall (fun t => count_spaces t = 0%nat) toks) /\
  to_string (op_or kNicChanged kAddressChanged) = "NIC IP"%string.
Proof.
  split; [reflexivity|]. split; [|reflexivity].
  intros nic addr route Hnz toks s. subst toks s.
  destruct nic, addr, route;
    try (exfalso; apply Hnz; reflexivity);
    (split; [reflexivity|]); (split; [discriminate|]);
    (split; [discriminate|]); (split; [reflexivity|]);
    repeat constructor.
Qed.

Lemma to_string_spec_witness :
  of_flags true false true <> kNone /\
  to_string (of_flags true false true) = "NIC Route"%string.
Proof.
  split; [discriminate|].
  exact (proj1 (proj1 (proj2 to_string_spec) true false true
                  ltac:(discriminate))).
Defined.

(** C9: a non-zero value with none of the three named bits renders as the
    empty string; "None" is kept for the value zero. *)
Theorem to_string_unnamed_bits (v : NetworkChangeEvent) :
  v <> kNone ->
  op_and v (op_or kNicChanged (op_or kAddressChanged kRouteChanged)) = kNone ->
  to_string v = ""%string /\ to_string v <> to_string kNone.
Proof.
  intros Hv Hbits.
  assert (Hb : forall n, 0 <= n < 3 -> Z.testbit v n = false).
  { intros n Hn.
    assert (E : Z.testbit (Z.land v 7) n = false)
      by (unfold op_and in Hbits; simpl in Hbits; rewrite Hbits; apply Z.bits_0).
    rewrite Z.land_spec in E.
    assert (n = 0 \/ n = 1 \/ n = 2) as [->|[->| ->]] by lia;
      simpl in E; now rewrite andb_true_r in E. }
  assert (E : to_string v = ""%string).
  { rewrite to_string_tokens by assumption. unfold tokens.
    rewrite has_flag_nic, has_flag_address, has_flag_route.
    rewrite !Hb by lia. reflexivity. }
  split; [exact E|]. rewrite E. discriminate.
Qed.

Lemma to_string_unnamed_bits_witness :
  to_string 8 = ""%string /\ to_string 8 <> to_string kNone.
Proof.
  apply (to_string_unnamed_bits 8); [discriminate|reflexivity].
Defined.

End EventFacts.

(** ** Reads from the array *)

Module LoadFacts.
Import Event Netlink Monitor.

Lemma take_bytes_spec (n : nat) (l bs : list byte) :
  take_bytes n l = Some bs <-> (n <= length l)%nat /\ bs = firstn n l.
Proof.
  revert l bs. induction n as [|n IH]; intros l bs; simpl.
  - split.
    + intros [= <-]. split; [lia|reflexivity].
    + intros [_ ->]. reflexivity.
  - destruct l as [|b l]; simpl.
    + split; [discriminate|]. intros [H _]. lia.
    + destruct (take_bytes n l) as [bs'|] eqn:E; simpl.
      * apply IH in E as [Hn ->]. split.
        -- intros [= <-]. split; [lia|reflexivity].
        -- intros [_ ->]. reflexivity.
      * split; [discriminate|]. intros [Hn ->].
        assert (take_bytes n l = Some (firstn n l)) as E'
          by (apply IH; split; [lia|reflexivity]).
        congruence.
Qed.

Lemma load_bytes_spec (buf : buffer) (off : Z) (n : nat) (bs : list byte) :
  (0 < n)%nat ->
  load_bytes buf off n = Some bs <->
  0 <= off /\ off + Z.of_nat n <= Z.of_nat (length buf) /\
  bs = firstn n (skipn (Z.to_nat off) buf).
Proof.
  intros Hpn. unfold load_bytes. destruct (Z.ltb_spec off 0) as [Hneg|Hpos].
  - split; [discriminate|]. intros [H _]. lia.
  - rewrite take_bytes_spec, length_skipn. split.
    + intros [Hn ->]. repeat split; lia.
    + intros [_ [Hn ->]]. split; [lia|reflexivity].
Qed.

Lemma load_bytes_length buf off n bs :
  (0 < n)%nat ->
  load_bytes buf off n = Some bs -> length bs = n.
Proof.
  intros Hpn H. apply load_bytes_spec in H as [H0 [Hn ->]]; [|assumption].
  rewrite length_firstn, length_skipn. lia.
Qed.

(** A read that stays below [m] sees the same bytes in two arrays that agree
    up to [m]. *)
Lemma load_bytes_agree (m : Z) buf1 buf2 off n bs :
  (0 < n)%nat ->
  agree_upto m buf1 buf2 ->
  off + Z.of_nat n <= m ->
  load_bytes buf1 off n = Some bs ->
  load_bytes buf2 off n = Some bs.
Proof.
  unfold agree_upto. intros Hpn Hag Hm H.
  apply load_bytes_spec in H as [H0 [Hn ->]]; [|assumption].
  assert (Hk : (Z.to_nat off + n <= Z.to_nat m)%nat) by lia.
  assert (Hl : (Z.to_nat off + n <= length buf2)%nat).
  { apply (f_equal (@length byte)) in Hag. rewrite !length_firstn in Hag. lia. }
  apply load_bytes_spec; [assumption|]. repeat split; [lia|lia|].
  rewrite !firstn_skipn_comm.
  assert (E : forall b : buffer,
             firstn (Z.to_nat off + n) b
             = firstn (Z.to_nat off + n) (firstn (Z.to_nat m) b)).
  { intros b. rewrite firstn_firstn. f_equal. lia. }
  rewrite (E buf1), (E buf2), Hag. reflexivity.
Qed.

(** A read inside a byte range is the same read in an array that holds the
    range. *)
Lemma load_bytes_inside (pre r post : list byte) k n bs :
  (0 < n)%nat ->
  load_bytes r k n = Some bs ->
  load_bytes (pre ++ r ++ post) (Z.of_nat (length pre) + k) n = Some bs.
Proof.
  intros Hpn H. apply load_bytes_spec in H as [H0 [Hn ->]]; [|assumption].
  apply load_bytes_spec; [assumption|]. repeat split.
  - lia.
  - rewrite !length_app. lia.
  - replace (Z.to_nat (Z.of_nat (length pre) + k))
      with (length pre + Z.to_nat k)%nat by lia.
    rewrite Nat.add_comm, <- skipn_skipn.
    rewrite skipn_app, skipn_all, Nat.sub_diag. simpl.
    rewrite skipn_app, firstn_app.
    replace (n - length (skipn (Z.to_nat k) r))%nat with 0%nat
      by (rewrite length_skipn; lia).
    simpl. now rewrite app_nil_r.
Qed.

End LoadFacts.

(** ** The walk over one datagram *)

Module WalkFacts.
Import Event Netlink Monitor LoadFacts.

Lemma NLMSG_ALIGN_nonneg l : 0 <= NLMSG_ALIGN l.
Proof.
  unfold NLMSG_ALIGN. apply Z.land_nonneg. left.
  unfold uint. apply Z.mod_pos_bound. lia.
Qed.

Lemma land_align_mask x :
  0 <= x < 2 ^ 32 -> Z.land x 4294967292 = 4 * (x / 4).
Proof.
  intros Hx. apply Z.bits_inj'. intros n Hn.
  rewrite Z.land_spec.
  change 4294967292 with (Z.shiftl (Z.ones 30) 2).
  rewrite Z.shiftl_spec by assumption.
  replace (4 * (x / 4)) with (x / 2 ^ 2 * 2 ^ 2) by (change (2 ^ 2) with 4; lia).
  rewrite Z.mul_pow2_bits by lia.
  destruct (Z.ltb_spec n 2) as [Hlt|Hge].
  - rewrite !(Z.testbit_neg_r _ (n - 2)) by lia. apply andb_false_r.
  - rewrite Z.div_pow2_bits by lia. replace (n - 2 + 2) with n by lia.
    rewrite Z.testbit_ones_nonneg by lia.
    destruct (Z.ltb_spec (n - 2) 30) as [Hlt'|Hge'].
    + apply andb_true_r.
    + rewrite andb_false_r.
      destruct (Z.eq_dec x 0) as [->|Hnz]; [now rewrite Z.bits_0|].
      symmetry. apply Z.bits_above_log2; [lia|].
      apply Z.lt_le_trans with 32; [|lia].
      apply Z.log2_lt_pow2; lia.
Qed.

(** [NLMSG_ALIGN] rounds up to the next multiple of four, in [unsigned int]. *)
Lemma NLMSG_ALIGN_spec l : NLMSG_ALIGN l = 4 * (uint (l + 3) / 4).
Proof.
  unfold NLMSG_ALIGN, NLMSG_ALIGNTO.
  replace (l + 4 - 1) with (l + 3) by lia.
  change (uint (Z.lnot (4 - 1))) with 4294967292.
  apply land_align_mask. unfold uint. apply Z.mod_pos_bound. lia.
Qed.

Lemma NLMSG_ALIGN_round l :
  0 <= l <= 2 ^ 32 - 4 ->
  l <= NLMSG_ALIGN l < l + 4 /\ NLMSG_ALIGN l mod 4 = 0.
Proof.
  intros Hl. rewrite NLMSG_ALIGN_spec. unfold uint.
  change (2 ^ 32) with 4294967296 in *.
  rewrite Z.mod_small by lia. split.
  - pose proof (Z.div_mod (l + 3) 4). pose proof (Z.mod_pos_bound (l + 3) 4).
    lia.
  - rewrite Z.mul_comm. apply Z.mod_mul. lia.
Qed.

(** An advance that is not zero is of a whole header at least. *)
Lemma NLMSG_ALIGN_advance l :
  sizeof_nlmsghdr <= l < 2 ^ 32 -> NLMSG_ALIGN l <> 0 ->
  sizeof_nlmsghdr <= NLMSG_ALIGN l.
Proof.
  unfold sizeof_nlmsghdr. intros Hl Hadv.
  destruct (Z.le_gt_cases l (2 ^ 32 - 4)) as [Hs|Hb].
  - pose proof (NLMSG_ALIGN_round l). lia.
  - exfalso. apply Hadv. rewrite NLMSG_ALIGN_spec. unfold uint.
    change (2 ^ 32) with 4294967296 in *.
    replace ((l + 3) mod 4294967296) with (l + 3 - 4294967296).
    + rewrite Z.div_small; lia.
    + apply Z.mod_unique with 1; lia.
Qed.

Lemma byte_val_range b : 0 <= byte_val b < 256.
Proof.
  unfold byte_val. pose proof (Byte.to_N_bounded b). lia.
Qed.

Lemma le_value_range bs : 0 <= le_value bs < 256 ^ Z.of_nat (length bs).
Proof.
  induction bs as [|b bs IH].
  - simpl. lia.
  - cbn [le_value length]. pose proof (byte_val_range b).
    rewrite Nat2Z.inj_succ, Z.pow_succ_r by lia. lia.
Qed.

Lemma nlmsg_len_range buf msg l : nlmsg_len buf msg = Some l -> 0 <= l < 2 ^ 32.
Proof.
  unfold nlmsg_len, load_u32.
  destruct (load_bytes buf msg 4) as [bs|] eqn:E; [|discriminate].
  intros [= <-]. apply load_bytes_length in E; [|lia].
  pose proof (le_value_range bs) as H. rewrite E in H.
  change (256 ^ Z.of_nat 4) with (2 ^ 32) in H. exact H.
Qed.

Lemma nlmsg_type_range buf msg ty :
  nlmsg_type buf msg = Some ty -> 0 <= ty < 2 ^ 16.
Proof.
  unfold nlmsg_type, load_u16.
  destruct (load_bytes buf (msg + 4) 2) as [bs|] eqn:E; [|discriminate].
  intros [= <-]. apply load_bytes_length in E; [|lia].
  pose proof (le_value_range bs) as H. rewrite E in H.
  change (256 ^ Z.of_nat 2) with (2 ^ 16) in H. exact H.
Qed.

Lemma nlmsg_len_inside buf msg l :
  nlmsg_len buf msg = Some l -> 0 <= msg /\ msg + 4 <= Z.of_nat (length buf).
Proof.
  unfold nlmsg_len, load_u32.
  destruct (load_bytes buf msg 4) as [bs|] eqn:E; [|discriminate].
  intros _. apply load_bytes_spec in E; [|lia]. lia.
Qed.

Lemma NLMSG_OK_true buf msg len :
  NLMSG_OK buf msg len = Some true ->
  exists l, nlmsg_len buf msg = Some l /\
            sizeof_nlmsghdr <= l /\ l <= len /\ sizeof_nlmsghdr <= len.
Proof.
  unfold NLMSG_OK. destruct (Z.geb_spec len sizeof_nlmsghdr) as [Hlen|Hlen];
    [|discriminate].
  destruct (nlmsg_len buf msg) as [l|]; [|discriminate].
  intros [= H]. apply andb_prop in H as [H1 H2].
  exists l. repeat split; lia.
Qed.

Lemma NLMSG_OK_outside buf msg len :
  Z.of_nat (length buf) < msg + 4 -> NLMSG_OK buf msg len <> Some true.
Proof.
  intros Hout Hok. apply NLMSG_OK_true in Hok as [l [Hl _]].
  apply nlmsg_len_inside in Hl. lia.
Qed.

Lemma walk_fuel_unfold fuel buf msg len received_events :
  walk_fuel fuel buf msg len received_events =
  match NLMSG_OK buf msg len with
  | None => Some WalkOutOfBounds
  | Some false => Some (WalkEnd received_events)
  | Some true =>
      match dispatch buf msg received_events with
      | GotoEndOfMultiPartMsg => Some (WalkEnd received_events)
      | Throw err => Some (WalkThrow err)
      | SwitchOutOfBounds => Some WalkOutOfBounds
      | Break received_events' =>
          match nlmsg_len buf msg with
          | None => Some WalkOutOfBounds
          | Some l =>
              if NLMSG_ALIGN l =? 0 then Some WalkSpins
              else
                match fuel with
                | O => None
                | S fuel' =>
                    walk_fuel fuel' buf (msg + NLMSG_ALIGN l)
                      (size_t (len - NLMSG_ALIGN l)) received_events'
                end
          end
      end
  end.
Proof. destruct fuel; reflexivity. Qed.

(** With fuel for every byte that is left, the model of the loop does not run
    out of it, and more fuel changes nothing. *)
(** Closes the cases in which both sides of [walk_fuel_enough] have ended. *)
Local Ltac ended := split; [discriminate|reflexivity].

Lemma walk_fuel_enough fuel buf msg len received_events :
  Z.of_nat (length buf) < Z.of_nat fuel + msg + 4 ->
  walk_fuel fuel buf msg len received_events <> None /\
  walk_fuel (S fuel) buf msg len received_events
  = walk_fuel fuel buf msg len received_events.
Proof.
  revert msg len received_events.
  induction fuel as [|fuel IH]; intros msg len ev Hfuel.
  - rewrite (walk_fuel_unfold 1), (walk_fuel_unfold 0).
    destruct (NLMSG_OK buf msg len) as [[|]|] eqn:Hok;
      try ended.
    exfalso. apply (NLMSG_OK_outside buf msg len); [lia|assumption].
  - rewrite (walk_fuel_unfold (S (S fuel))), (walk_fuel_unfold (S fuel)).
    destruct (NLMSG_OK buf msg len) as [[|]|] eqn:Hok;
      try ended.
    destruct (dispatch buf msg ev) as [|err|ev'|];
      try ended.
    destruct (nlmsg_len buf msg) as [l|] eqn:Hl;
      try ended.
    destruct (Z.eqb_spec (NLMSG_ALIGN l) 0) as [|Hadv];
      try ended.
    pose proof (NLMSG_ALIGN_nonneg l).
    apply IH. lia.
Qed.

Lemma walk_fuel_total buf msg len received_events :
  exists r, walk_fuel (length buf) buf msg len received_events = Some r.
Proof.
  destruct (Z.ltb_spec msg 0) as [Hneg|Hpos].
  - rewrite walk_fuel_unfold.
    destruct (NLMSG_OK buf msg len) as [[|]|] eqn:Hok; eauto.
    apply NLMSG_OK_true in Hok as [l [Hl _]].
    apply nlmsg_len_inside in Hl. lia.
  - destruct (walk_fuel (length buf) buf msg len received_events) as [r|] eqn:E;
      [eauto|].
    exfalso. revert E. apply walk_fuel_enough. lia.
Qed.

(** The loop, one iteration at a time. *)
Lemma walk_unfold buf msg len received_events :
  walk buf msg len received_events =
  match NLMSG_OK buf msg len with
  | None => WalkOutOfBounds
  | Some false => WalkEnd received_events
  | Some true =>
      match dispatch buf msg received_events with
      | GotoEndOfMultiPartMsg => WalkEnd received_events
      | Throw err => WalkThrow err
      | SwitchOutOfBounds => WalkOutOfBounds
      | Break received_events' =>
          match nlmsg_len buf msg with
          | None => WalkOutOfBounds
          | Some l =>
              if NLMSG_ALIGN l =? 0 then WalkSpins
              else walk buf (msg + NLMSG_ALIGN l)
                     (size_t (len - NLMSG_ALIGN l)) received_events'
          end
      end
  end.
Proof.
  unfold walk. rewrite walk_fuel_unfold.
  destruct (NLMSG_OK buf msg len) as [[|]|] eqn:Hok; try reflexivity.
  destruct (dispatch buf msg received_events) as [|err|ev'|]; try reflexivity.
  destruct (nlmsg_len buf msg) as [l|] eqn:Hl; try reflexivity.
  destruct (Z.eqb_spec (NLMSG_ALIGN l) 0) as [|Hadv]; try reflexivity.
  apply nlmsg_len_inside in Hl. pose proof (NLMSG_ALIGN_nonneg l).
  destruct (length buf) as [|k] eqn:Hk; [simpl in Hl; lia|].
  rewrite <- Hk.
  assert (E : walk_fuel (S k) buf (msg + NLMSG_ALIGN l)
                (size_t (len - NLMSG_ALIGN l)) ev'
              = walk_fuel k buf (msg + NLMSG_ALIGN l)
                  (size_t (len - NLMSG_ALIGN l)) ev')
    by (apply walk_fuel_enough; lia).
  rewrite Hk, E. reflexivity.
Qed.

End WalkFacts.

Module StepFacts.
Import Event Netlink Monitor LoadFacts WalkFacts.

Lemma union_flags_cons ty tys :
  union_flags (ty :: tys) = op_or (table_flag ty) (union_flags tys).
Proof. reflexivity. Qed.

Lemma union_flags_app tys1 tys2 :
  union_flags (tys1 ++ tys2) = op_or (union_flags tys1) (union_flags tys2).
Proof.
  induction tys1 as [|ty tys1 IH].
  - reflexivity.
  - rewrite <- app_comm_cons, !union_flags_cons, IH.
    unfold op_or. apply Z.lor_assoc.
Qed.

Lemma union_flags_permutation tys1 tys2 :
  Permutation tys1 tys2 -> union_flags tys1 = union_flags tys2.
Proof.
  induction 1 as [|ty l l' _ IH|a b l|l l' l'' _ IH1 _ IH2].
  - reflexivity.
  - rewrite !union_flags_cons. now rewrite IH.
  - rewrite !union_flags_cons. unfold op_or.
    rewrite !Z.lor_assoc. f_equal. apply Z.lor_comm.
  - congruence.
Qed.

(** What the [switch] does with a type code that is neither DONE nor ERROR. *)
Lemma dispatch_table buf msg received_events ty :
  nlmsg_type buf msg = Some ty ->
  ty <> NLMSG_DONE -> ty <> NLMSG_ERROR ->
  dispatch buf msg received_events
  = Break (op_or received_events (table_flag ty)).
Proof.
  intros Hty Hd He. unfold dispatch. rewrite Hty.
  rewrite (proj2 (Z.eqb_neq _ _) Hd), (proj2 (Z.eqb_neq _ _) He).
  unfold table_flag, op_or_assign.
  destruct (ty =? RTM_NEWLINK); [reflexivity|].
  destruct (ty =? RTM_NEWADDR); [reflexivity|].
  destruct (ty =? RTM_DELADDR); [reflexivity|].
  destruct (ty =? RTM_NEWROUTE); [reflexivity|].
  destruct (ty =? RTM_DELROUTE); [reflexivity|].
  simpl. unfold op_or, kNone. now rewrite Z.lor_0_r.
Qed.

Lemma dispatch_done buf msg received_events :
  nlmsg_type buf msg = Some NLMSG_DONE ->
  dispatch buf msg received_events = GotoEndOfMultiPartMsg.
Proof. intros Hty. unfold dispatch. now rewrite Hty. Qed.

Lemma dispatch_error buf msg received_events :
  nlmsg_type buf msg = Some NLMSG_ERROR ->
  dispatch buf msg received_events
  = match nlmsgerr_error buf msg with
    | Some err => Throw err
    | None => SwitchOutOfBounds
    end.
Proof.
  intros Hty. unfold dispatch. rewrite Hty. simpl.
  destruct (nlmsgerr_error buf msg); reflexivity.
Qed.

Lemma dispatch_break_inv buf msg received_events received_events' :
  dispatch buf msg received_events = Break received_events' ->
  exists ty, nlmsg_type buf msg = Some ty /\
             ty <> NLMSG_DONE /\ ty <> NLMSG_ERROR /\
             received_events' = op_or received_events (table_flag ty).
Proof.
  intros H. destruct (nlmsg_type buf msg) as [ty|] eqn:Hty.
  - destruct (Z.eq_dec ty NLMSG_DONE) as [->|Hd].
    + rewrite dispatch_done in H by assumption. discriminate.
    + destruct (Z.eq_dec ty NLMSG_ERROR) as [->|He].
      * rewrite dispatch_error in H by assumption.
        destruct (nlmsgerr_error buf msg); discriminate.
      * rewrite (dispatch_table _ _ _ ty) in H by assumption.
        exists ty. injection H as <-. auto.
  - unfold dispatch in H. rewrite Hty in H. discriminate.
Qed.

Lemma iteration_inv buf msg len received_events ty c' :
  iteration buf (msg, len, received_events) = Some (ty, c') ->
  exists l,
    NLMSG_OK buf msg len = Some true /\
    nlmsg_type buf msg = Some ty /\
    ty <> NLMSG_DONE /\ ty <> NLMSG_ERROR /\
    nlmsg_len buf msg = Some l /\
    NLMSG_ALIGN l <> 0 /\
    c' = (msg + NLMSG_ALIGN l, size_t (len - NLMSG_ALIGN l),
          op_or received_events (table_flag ty)).
Proof.
  unfold iteration.
  destruct (NLMSG_OK buf msg len) as [[|]|]; try discriminate.
  destruct (nlmsg_type buf msg) as [ty0|] eqn:Hty; try discriminate.
  destruct (dispatch buf msg received_events) as [| |ev'|] eqn:Hd;
    try discriminate.
  destruct (nlmsg_len buf msg) as [l|]; try discriminate.
  destruct (Z.eqb_spec (NLMSG_ALIGN l) 0) as [|Hadv]; try discriminate.
  simpl. intros [= <- <-].
  apply dispatch_break_inv in Hd as [ty1 [Hty1 [Hd1 [He1 ->]]]].
  assert (ty1 = ty0) as -> by congruence.
  exists l. repeat split; auto.
Qed.

Lemma iteration_intro buf msg len received_events ty l :
  NLMSG_OK buf msg len = Some true ->
  nlmsg_type buf msg = Some ty ->
  ty <> NLMSG_DONE -> ty <> NLMSG_ERROR ->
  nlmsg_len buf msg = Some l ->
  NLMSG_ALIGN l <> 0 ->
  iteration buf (msg, len, received_events)
  = Some (ty, (msg + NLMSG_ALIGN l, size_t (len - NLMSG_ALIGN l),
               op_or received_events (table_flag ty))).
Proof.
  intros Hok Hty Hd He Hl Hadv. unfold iteration.
  rewrite Hok, Hty, (dispatch_table _ _ _ ty), Hl by assumption.
  rewrite (proj2 (Z.eqb_neq _ _) Hadv). reflexivity.
Qed.

Lemma iteration_inside buf msg len received_events ty c' :
  iteration buf (msg, len, received_events) = Some (ty, c') ->
  0 <= msg /\ msg + 4 <= Z.of_nat (length buf) /\ msg < fst (fst c').
Proof.
  intros H. apply iteration_inv in H as [l [_ [_ [_ [_ [Hl [Hadv ->]]]]]]].
  apply nlmsg_len_inside in Hl. pose proof (NLMSG_ALIGN_nonneg l).
  simpl. lia.
Qed.

(** Whether an iteration comes back to the loop head, and where, does not
    depend on the accumulator. *)
Lemma iteration_events buf msg len ev ev0 ty msg' len' ev' :
  iteration buf (msg, len, ev) = Some (ty, (msg', len', ev')) ->
  iteration buf (msg, len, ev0)
  = Some (ty, (msg', len', op_or ev0 (table_flag ty))) /\
  ev' = op_or ev (table_flag ty).
Proof.
  intros H.
  apply iteration_inv in H as [l [Hok [Hty [Hd [He [Hl [Hadv E]]]]]]].
  injection E as -> -> ->.
  split; [|reflexivity]. now apply iteration_intro.
Qed.

Lemma walk_types_fuel_unfold fuel buf msg len :
  walk_types_fuel fuel buf msg len =
  match iteration buf (msg, len, kNone) with
  | Some (ty, (msg', len', _)) =>
      ty :: match fuel with
            | O => []
            | S fuel' => walk_types_fuel fuel' buf msg' len'
            end
  | None => []
  end.
Proof. destruct fuel; reflexivity. Qed.

Lemma walk_types_fuel_enough fuel buf msg len :
  Z.of_nat (length buf) < Z.of_nat fuel + msg + 4 ->
  walk_types_fuel (S fuel) buf msg len = walk_types_fuel fuel buf msg len.
Proof.
  revert msg len. induction fuel as [|fuel IH]; intros msg len Hfuel.
  - rewrite (walk_types_fuel_unfold 1), (walk_types_fuel_unfold 0).
    destruct (iteration buf (msg, len, kNone)) as [[ty c']|] eqn:Hit;
      [|reflexivity].
    apply iteration_inside in Hit. lia.
  - rewrite (walk_types_fuel_unfold (S (S fuel))),
      (walk_types_fuel_unfold (S fuel)).
    destruct (iteration buf (msg, len, kNone)) as [[ty [[msg' len'] ev']]|]
      eqn:Hit; [|reflexivity].
    apply iteration_inside in Hit. simpl in Hit.
    f_equal. apply IH. lia.
Qed.

Lemma walk_types_unfold buf msg len :
  walk_types buf msg len =
  match iteration buf (msg, len, kNone) with
  | Some (ty, (msg', len', _)) => ty :: walk_types buf msg' len'
  | None => []
  end.
Proof.
  unfold walk_types. rewrite walk_types_fuel_unfold.
  destruct (iteration buf (msg, len, kNone)) as [[ty [[msg' len'] ev']]|]
    eqn:Hit; [|reflexivity].
  apply iteration_inside in Hit. simpl in Hit.
  destruct (length buf) as [|k] eqn:Hk; [simpl in Hit; lia|].
  f_equal. symmetry. apply walk_types_fuel_enough. lia.
Qed.

(** The walk after an iteration that comes back to the loop head. *)
Lemma walk_iteration buf msg len ev ty msg' len' ev' :
  iteration buf (msg, len, ev) = Some (ty, (msg', len', ev')) ->
  walk buf msg len ev = walk buf msg' len' ev' /\
  walk_types buf msg len = ty :: walk_types buf msg' len'.
Proof.
  intros H. split.
  - apply iteration_inv in H as [l [Hok [Hty [Hd [He [Hl [Hadv E]]]]]]].
    injection E as -> -> ->.
    rewrite walk_unfold at 1.
    rewrite Hok, (dispatch_table _ _ _ ty), Hl by assumption.
    now rewrite (proj2 (Z.eqb_neq _ _) Hadv).
  - rewrite walk_types_unfold at 1.
    apply (iteration_events _ _ _ _ kNone) in H as [-> _]. reflexivity.
Qed.

(** When no iteration comes back to the loop head the walk is over, and the
    accumulator is not changed by what ends it. *)
Lemma walk_no_iteration buf msg len ev :
  iteration buf (msg, len, ev) = None ->
  walk_types buf msg len = [] /\
  forall ev', walk buf msg len ev = WalkEnd ev' -> ev' = ev.
Proof.
  intros H. split.
  - rewrite walk_types_unfold.
    destruct (iteration buf (msg, len, kNone)) as [[ty [[msg' len'] e]]|]
      eqn:Hit; [|reflexivity].
    apply (iteration_events _ _ _ _ ev) in Hit as [Hit _]. congruence.
  - intros ev'. rewrite walk_unfold. unfold iteration in H.
    destruct (NLMSG_OK buf msg len) as [[|]|]; try congruence.
    destruct (dispatch buf msg ev) as [| |e|] eqn:Hd; try congruence.
    apply dispatch_break_inv in Hd as [ty [Hty _]]. rewrite Hty in H.
    destruct (nlmsg_len buf msg) as [l|]; try congruence.
    destruct (NLMSG_ALIGN l =? 0); [congruence|discriminate].
Qed.

(** Induction along the iterations of the loop. *)
Lemma walk_induction (buf : buffer) (P : Z -> Z -> Prop) :
  (forall msg len,
      (forall ty msg' len' ev',
          iteration buf (msg, len, kNone) = Some (ty, (msg', len', ev')) ->
          P msg' len') ->
      P msg len) ->
  forall msg len, P msg len.
Proof.
  intros Hstep.
  assert (H : forall n msg len,
             (Z.to_nat (Z.of_nat (length buf) - msg) < n)%nat -> P msg len).
  { induction n as [|n IH]; intros msg len Hn; [lia|].
    apply Hstep. intros ty msg' len' ev' Hit.
    apply iteration_inside in Hit. simpl in Hit.
    apply IH. lia. }
  intros msg len. apply (H (S (Z.to_nat (Z.of_nat (length buf) - msg)))). lia.
Qed.

(** A walk that ends has ORed into the accumulator the table's flags of the
    records it classified. *)
Lemma walk_end_union buf msg len ev ev' :
  walk buf msg len ev = WalkEnd ev' ->
  ev' = op_or ev (union_flags (walk_types buf msg len)).
Proof.
  revert ev. pattern msg, len. apply (walk_induction buf). clear msg len.
  intros msg len IH ev Hw.
  destruct (iteration buf (msg, len, ev)) as [[ty [[msg' len'] e]]|] eqn:Hit.
  - destruct (iteration_events _ _ _ _ kNone _ _ _ _ Hit) as [Hit0 ->].
    apply walk_iteration in Hit as [E1 E2].
    rewrite E1 in Hw. rewrite E2, union_flags_cons.
    rewrite (IH _ _ _ _ Hit0 _ Hw). unfold op_or. now rewrite Z.lor_assoc.
  - apply walk_no_iteration in Hit as [-> Hev].
    rewrite (Hev _ Hw). unfold union_flags, op_or, kNone. simpl.
    now rewrite Z.lor_0_r.
Qed.

(** The walk seen from a loop head it reaches. *)
Lemma reaches_walk buf msg0 len0 ev0 tys msg len ev :
  reaches buf (msg0, len0, ev0) tys (msg, len, ev) ->
  walk buf msg0 len0 ev0 = walk buf msg len ev /\
  walk_types buf msg0 len0 = tys ++ walk_types buf msg len /\
  ev = op_or ev0 (union_flags tys).
Proof.
  intros H. remember (msg0, len0, ev0) as c0 eqn:E0.
  remember (msg, len, ev) as c eqn:E. revert msg len ev E.
  induction H as [c|c c' c'' tys ty Hr IH Hit]; intros msg len ev E.
  - rewrite E0 in E. injection E as <- <- <-.
    repeat split. unfold union_flags, op_or, kNone. simpl.
    now rewrite Z.lor_0_r.
  - subst c c''. destruct c' as [[msg1 len1] ev1].
    destruct (IH eq_refl _ _ _ eq_refl) as [E1 [E2 E3]].
    apply walk_iteration in Hit as Hw. destruct Hw as [E4 E5].
    apply (iteration_events _ _ _ _ kNone) in Hit as [_ E6].
    repeat split.
    + congruence.
    + rewrite E2, E5, <- app_assoc. reflexivity.
    + rewrite E6, E3, union_flags_app. unfold union_flags at 2. simpl.
      unfold op_or, kNone. rewrite Z.lor_0_r. now rewrite Z.lor_assoc.
Qed.

Lemma walk_at_error buf msg len ev :
  NLMSG_OK buf msg len = Some true ->
  nlmsg_type buf msg = Some NLMSG_ERROR ->
  walk buf msg len ev
  = match nlmsgerr_error buf msg with
    | Some err => WalkThrow err
    | None => WalkOutOfBounds
    end /\
  walk_types buf msg len = [].
Proof.
  intros Hok Hty. split.
  - rewrite walk_unfold, Hok, dispatch_error by assumption.
    destruct (nlmsgerr_error buf msg); reflexivity.
  - rewrite walk_types_unfold.
    destruct (iteration buf (msg, len, kNone)) as [[ty c']|] eqn:Hit;
      [|reflexivity].
    apply iteration_inv in Hit as [l [_ [Hty' [_ [He _]]]]]. congruence.
Qed.

(** The error field of a record that holds it and lies in the array can be
    read. *)
Lemma nlmsgerr_error_inside buf msg l :
  0 <= msg -> 20 <= l -> msg + l <= Z.of_nat (length buf) ->
  exists err, nlmsgerr_error buf msg = Some err.
Proof.
  intros Hmsg Hl Hin. unfold nlmsgerr_error, load_int, NLMSG_DATA.
  change NLMSG_HDRLEN with 16.
  assert (exists bs, load_bytes buf (msg + 16) 4 = Some bs) as [bs Hbs].
  { eexists. apply load_bytes_spec; [lia|]. repeat split; lia. }
  rewrite Hbs. simpl. eauto.
Qed.

Lemma walk_at_done buf msg len ev :
  NLMSG_OK buf msg len = Some true ->
  nlmsg_type buf msg = Some NLMSG_DONE ->
  walk buf msg len ev = WalkEnd ev /\ walk_types buf msg len = [].
Proof.
  intros Hok Hty. split.
  - rewrite walk_unfold, Hok, dispatch_done by assumption. reflexivity.
  - rewrite walk_types_unfold.
    destruct (iteration buf (msg, len, kNone)) as [[ty c']|] eqn:Hit;
      [|reflexivity].
    apply iteration_inv in Hit as [l [_ [Hty' [Hd _]]]]. congruence.
Qed.

End StepFacts.

(** ** What a walk looks at *)

Module AgreeFacts.
Import Event Netlink Monitor LoadFacts WalkFacts StepFacts.

Lemma agree_upto_le m n buf1 buf2 :
  m <= n -> agree_upto n buf1 buf2 -> agree_upto m buf1 buf2.
Proof.
  unfold agree_upto. intros Hmn H.
  assert (E : forall b : buffer,
             firstn (Z.to_nat m) b
             = firstn (Z.to_nat m) (firstn (Z.to_nat n) b)).
  { intros b. rewrite firstn_firstn. f_equal. lia. }
  rewrite (E buf1), (E buf2), H. reflexivity.
Qed.

Lemma nlmsg_len_agree m buf1 buf2 msg l :
  agree_upto m buf1 buf2 -> msg + 4 <= m ->
  nlmsg_len buf1 msg = Some l -> nlmsg_len buf2 msg = Some l.
Proof.
  unfold nlmsg_len, load_u32. intros Hag Hm.
  destruct (load_bytes buf1 msg 4) as [bs|] eqn:E; [|discriminate].
  apply (load_bytes_agree m _ buf2) in E; [|lia|assumption|lia].
  now rewrite E.
Qed.

Lemma nlmsg_type_agree m buf1 buf2 msg ty :
  agree_upto m buf1 buf2 -> msg + 6 <= m ->
  nlmsg_type buf1 msg = Some ty -> nlmsg_type buf2 msg = Some ty.
Proof.
  unfold nlmsg_type, load_u16. intros Hag Hm.
  destruct (load_bytes buf1 (msg + 4) 2) as [bs|] eqn:E; [|discriminate].
  apply (load_bytes_agree m _ buf2) in E; [|lia|assumption|lia].
  now rewrite E.
Qed.

Lemma nlmsgerr_error_agree m buf1 buf2 msg err :
  agree_upto m buf1 buf2 -> msg + 20 <= m ->
  nlmsgerr_error buf1 msg = Some err -> nlmsgerr_error buf2 msg = Some err.
Proof.
  unfold nlmsgerr_error, load_int, NLMSG_DATA. intros Hag Hm.
  change NLMSG_HDRLEN with 16.
  destruct (load_bytes buf1 (msg + 16) 4) as [bs|] eqn:E; [|discriminate].
  apply (load_bytes_agree m _ buf2) in E; [|lia|assumption|lia].
  now rewrite E.
Qed.

Lemma NLMSG_OK_agree m buf1 buf2 msg len :
  agree_upto m buf1 buf2 -> msg + 4 <= m ->
  NLMSG_OK buf1 msg len = Some true -> NLMSG_OK buf2 msg len = Some true.
Proof.
  intros Hag Hm. unfold NLMSG_OK.
  destruct (len >=? sizeof_nlmsghdr); [|discriminate].
  destruct (nlmsg_len buf1 msg) as [l|] eqn:E; [|discriminate].
  now rewrite (nlmsg_len_agree m buf1 buf2 msg l Hag Hm E).
Qed.

Lemma iteration_agree m buf1 buf2 msg len ev x :
  agree_upto m buf1 buf2 -> msg + 6 <= m ->
  iteration buf1 (msg, len, ev) = Some x ->
  iteration buf2 (msg, len, ev) = Some x.
Proof.
  intros Hag Hm H. destruct x as [ty c'].
  apply iteration_inv in H as [l [Hok [Hty [Hd [He [Hl [Hadv ->]]]]]]].
  apply iteration_intro; auto.
  - apply (NLMSG_OK_agree m buf1); auto; lia.
  - apply (nlmsg_type_agree m buf1); auto.
  - apply (nlmsg_len_agree m buf1); auto; lia.
Qed.

Lemma reaches_msg_le buf c tys c' :
  reaches buf c tys c' -> fst (fst c) <= fst (fst c').
Proof.
  induction 1 as [c|c c' c'' tys ty _ IH Hit]; [lia|].
  destruct c' as [[msg1 len1] ev1].
  apply iteration_inside in Hit. simpl in *. lia.
Qed.

(** The way to a loop head depends on the bytes before it only. *)
Lemma reaches_agree buf1 buf2 c0 tys msg len ev :
  reaches buf1 c0 tys (msg, len, ev) ->
  agree_upto msg buf1 buf2 ->
  reaches buf2 c0 tys (msg, len, ev).
Proof.
  intros H. remember (msg, len, ev) as c eqn:E. revert msg len ev E.
  induction H as [c|c c' c'' tys ty Hr IH Hit]; intros msg len ev E Hag.
  - constructor.
  - subst c''. destruct c' as [[msg1 len1] ev1].
    pose proof (iteration_inside _ _ _ _ _ _ Hit) as Hin. simpl in Hin.
    apply iteration_inv in Hit as Hinv.
    destruct Hinv as [l [Hok [_ [_ [_ [Hl [Hadv E]]]]]]].
    injection E as E1 E2 E3.
    apply NLMSG_OK_true in Hok as [l' [Hl' [H16 _]]].
    assert (l' = l) as -> by congruence.
    apply (reaches_next buf2 c (msg1, len1, ev1)).
    + apply (IH _ _ _ eq_refl). apply (agree_upto_le _ msg); [lia|assumption].
    + apply (iteration_agree msg buf1); auto.
      pose proof (nlmsg_len_range _ _ _ Hl).
      pose proof (NLMSG_ALIGN_advance l). unfold sizeof_nlmsghdr in *. lia.
Qed.

Lemma NLMSG_OK_agree_any m buf1 buf2 msg len b :
  agree_upto m buf1 buf2 ->
  (sizeof_nlmsghdr <= len -> msg + 4 <= m) ->
  NLMSG_OK buf1 msg len = Some b -> NLMSG_OK buf2 msg len = Some b.
Proof.
  intros Hag Hm. unfold NLMSG_OK.
  destruct (Z.geb_spec len sizeof_nlmsghdr) as [Hlen|Hlen]; [|auto].
  destruct (nlmsg_len buf1 msg) as [l|] eqn:E; [|discriminate].
  now rewrite (nlmsg_len_agree m buf1 buf2 msg l Hag (Hm Hlen) E).
Qed.

Lemma reaches_prepend buf c ty c1 tys c2 :
  iteration buf c = Some (ty, c1) ->
  reaches buf c1 tys c2 ->
  reaches buf c (ty :: tys) c2.
Proof.
  intros Hit H. induction H as [c1|c1 c2 c3 tys ty' _ IH Hit'].
  - apply (reaches_next buf c c c1 [] ty); [apply reaches_here|exact Hit].
  - apply (reaches_next buf c c2 c3 (ty :: tys) ty'); [now apply IH|exact Hit'].
Qed.

(** Every walk comes to a loop head from which no iteration comes back. *)
Lemma walk_reaches_end buf msg0 len0 ev0 :
  exists tys msg len ev,
    reaches buf (msg0, len0, ev0) tys (msg, len, ev) /\
    iteration buf (msg, len, ev) = None.
Proof.
  revert ev0. pattern msg0, len0. apply (walk_induction buf). clear msg0 len0.
  intros msg0 len0 IH ev0.
  destruct (iteration buf (msg0, len0, ev0)) as [[ty [[msg1 len1] ev1]]|]
    eqn:Hit.
  - destruct (iteration_events _ _ _ _ kNone _ _ _ _ Hit) as [Hit0 _].
    destruct (IH _ _ _ _ Hit0 ev1) as [tys [msg [len [ev [Hr Hn]]]]].
    exists (ty :: tys), msg, len, ev. split; [|exact Hn].
    now apply (reaches_prepend buf _ ty (msg1, len1, ev1)).
  - exists [], msg0, len0, ev0. split; [apply reaches_here|exact Hit].
Qed.

Lemma dispatch_goto_inv buf msg ev :
  dispatch buf msg ev = GotoEndOfMultiPartMsg ->
  nlmsg_type buf msg = Some NLMSG_DONE.
Proof.
  intros H. destruct (nlmsg_type buf msg) as [ty|] eqn:Hty.
  - destruct (Z.eq_dec ty NLMSG_DONE) as [->|Hd]; [reflexivity|].
    destruct (Z.eq_dec ty NLMSG_ERROR) as [->|He].
    + rewrite dispatch_error in H by assumption.
      destruct (nlmsgerr_error buf msg); discriminate.
    + rewrite (dispatch_table _ _ _ ty) in H by assumption. discriminate.
  - unfold dispatch in H. rewrite Hty in H. discriminate.
Qed.

(** A walk that ends does so at a record that fails [NLMSG_OK] or at a DONE
    record. *)
Lemma walk_end_terminal buf msg len ev e :
  iteration buf (msg, len, ev) = None ->
  walk buf msg len ev = WalkEnd e ->
  e = ev /\
  (NLMSG_OK buf msg len = Some false \/
   NLMSG_OK buf msg len = Some true /\ nlmsg_type buf msg = Some NLMSG_DONE).
Proof.
  intros Hn Hw.
  destruct (walk_no_iteration _ _ _ _ Hn) as [_ He]. split; [now apply He|].
  rewrite walk_unfold in Hw.
  destruct (NLMSG_OK buf msg len) as [[|]|] eqn:Hok; try discriminate;
    [right|now left].
  split; [reflexivity|].
  destruct (dispatch buf msg ev) as [| |ev'|] eqn:Hd; try discriminate.
  - now apply dispatch_goto_inv in Hd.
  - exfalso. apply dispatch_break_inv in Hd as [ty [Hty [Hdn [Her _]]]].
    destruct (nlmsg_len buf msg) as [l|] eqn:Hl; try discriminate.
    destruct (Z.eqb_spec (NLMSG_ALIGN l) 0) as [|Hadv]; try discriminate.
    rewrite (iteration_intro _ _ _ _ ty l) in Hn by assumption. discriminate.
Qed.

End AgreeFacts.

(** ** Datagrams made of whole records *)

Module RecordFacts.
Import Event Netlink Monitor LoadFacts WalkFacts StepFacts.

Lemma size_t_small z : 0 <= z < 2 ^ 64 -> size_t z = z.
Proof. intros H. unfold size_t. now apply Z.mod_small. Qed.

Lemma nlmsg_len_inside_range pre r post l :
  nlmsg_len r 0 = Some l ->
  nlmsg_len (pre ++ r ++ post) (Z.of_nat (length pre)) = Some l.
Proof.
  unfold nlmsg_len, load_u32. intros H.
  destruct (load_bytes r 0 4) as [bs|] eqn:E; [|discriminate].
  apply (load_bytes_inside pre r post) in E; [|lia].
  rewrite Z.add_0_r in E. now rewrite E.
Qed.

Lemma nlmsg_type_inside_range pre r post ty :
  nlmsg_type r 0 = Some ty ->
  nlmsg_type (pre ++ r ++ post) (Z.of_nat (length pre)) = Some ty.
Proof.
  unfold nlmsg_type, load_u16. intros H.
  destruct (load_bytes r (0 + 4) 2) as [bs|] eqn:E; [|discriminate].
  apply (load_bytes_inside pre r post) in E; [|lia].
  replace (Z.of_nat (length pre) + (0 + 4))
    with (Z.of_nat (length pre) + 4) in E by lia.
  now rewrite E.
Qed.

Lemma well_formed_inv r :
  well_formed r = true ->
  exists l ty,
    nlmsg_len r 0 = Some l /\ nlmsg_type r 0 = Some ty /\ type_of r = ty /\
    sizeof_nlmsghdr <= l <= Z.of_nat (length r) /\
    NLMSG_ALIGN l = Z.of_nat (length r).
Proof.
  unfold well_formed, type_of.
  destruct (nlmsg_len r 0) as [l|] eqn:Hl; [|discriminate].
  intros H. apply andb_prop in H as [H H3]. apply andb_prop in H as [H1 H2].
  unfold sizeof_nlmsghdr in *.
  assert (exists bs, load_bytes r (0 + 4) 2 = Some bs) as [bs Hbs].
  { eexists. apply load_bytes_spec; [lia|]. repeat split; lia. }
  exists l, (le_value bs). unfold nlmsg_type, load_u16. rewrite Hbs. simpl.
  repeat split; lia.
Qed.

Lemma ordinary_inv r :
  ordinary r = true ->
  well_formed r = true /\ type_of r <> NLMSG_DONE /\ type_of r <> NLMSG_ERROR.
Proof.
  unfold ordinary. intros H.
  apply andb_prop in H as [H H3]. apply andb_prop in H as [H1 H2].
  repeat split; [assumption|lia|lia].
Qed.

(** One whole record at the loop head, with enough length left: the loop
    classifies it and moves to the byte after it. *)
Lemma iteration_record pre r post len ev :
  ordinary r = true ->
  Z.of_nat (length r) <= len < 2 ^ 64 ->
  iteration (pre ++ r ++ post) (Z.of_nat (length pre), len, ev)
  = Some (type_of r,
          (Z.of_nat (length (pre ++ r)), len - Z.of_nat (length r),
           op_or ev (table_flag (type_of r)))).
Proof.
  intros Hord Hlen. apply ordinary_inv in Hord as [Hwf [Hd He]].
  apply well_formed_inv in Hwf as [l [ty [Hl [Hty [Et [Hr Hal]]]]]].
  rewrite Et in *. unfold sizeof_nlmsghdr in *.
  rewrite (iteration_intro _ _ _ _ ty l); auto.
  - rewrite Hal, length_app, Nat2Z.inj_add, size_t_small by lia. reflexivity.
  - unfold NLMSG_OK.
    rewrite (nlmsg_len_inside_range pre r post l Hl).
    unfold sizeof_nlmsghdr.
    replace (len >=? 16) with true by lia.
    f_equal. lia.
  - now apply nlmsg_type_inside_range.
  - now apply nlmsg_len_inside_range.
  - lia.
Qed.

(** The walk over a datagram made of whole records, none of them DONE or
    ERROR: every record is classified, and the walk ends at the end of the
    datagram. *)
Lemma walk_records rs : forall pre post ev,
  Forall (fun r => ordinary r = true) rs ->
  Z.of_nat (length (concat rs)) < 2 ^ 64 ->
  walk (pre ++ concat rs ++ post) (Z.of_nat (length pre))
    (Z.of_nat (length (concat rs))) ev
  = WalkEnd (op_or ev (union_flags (map type_of rs))) /\
  walk_types (pre ++ concat rs ++ post) (Z.of_nat (length pre))
    (Z.of_nat (length (concat rs)))
  = map type_of rs.
Proof.
  induction rs as [|r rs IH]; intros pre post ev Hall Hsize.
  - simpl. rewrite walk_unfold, walk_types_unfold. simpl. split; [|reflexivity].
    unfold union_flags, op_or, kNone. simpl. now rewrite Z.lor_0_r.
  - inversion Hall as [|r' rs' Hr Hrs]; subst.
    cbn [concat map] in *. rewrite length_app, Nat2Z.inj_add in *.
    rewrite <- (app_assoc r).
    assert (Hit : forall e,
               iteration (pre ++ r ++ concat rs ++ post)
                 (Z.of_nat (length pre),
                  Z.of_nat (length r) + Z.of_nat (length (concat rs)), e)
               = Some (type_of r,
                       (Z.of_nat (length (pre ++ r)),
                        Z.of_nat (length (concat rs)),
                        op_or e (table_flag (type_of r))))).
    { intros e. rewrite iteration_record by (auto; lia).
      repeat f_equal. lia. }
    destruct (walk_iteration _ _ _ _ _ _ _ _ (Hit ev)) as [E1 E2].
    rewrite E1, E2.
    replace (pre ++ r ++ concat rs ++ post)
      with ((pre ++ r) ++ concat rs ++ post) by (now rewrite <- app_assoc).
    destruct (IH (pre ++ r) post (op_or ev (table_flag (type_of r))) Hrs)
      as [E3 E4]; [lia|].
    rewrite E3, E4. split; [|reflexivity].
    rewrite union_flags_cons. unfold op_or. now rewrite Z.lor_assoc.
Qed.

(** Receiving a datagram that fits: it lies at the start of the array. *)
Lemma async_receive_fits buf dgram :
  (length dgram <= length buf)%nat ->
  async_receive buf dgram
  = (dgram ++ skipn (length dgram) buf, Z.of_nat (length dgram)).
Proof.
  intros H. unfold async_receive.
  rewrite Nat.min_l by assumption. now rewrite firstn_all.
Qed.

Lemma async_receive_length buf dgram :
  length (fst (async_receive buf dgram)) = length buf /\
  0 <= snd (async_receive buf dgram) <= Z.of_nat (length buf) /\
  snd (async_receive buf dgram) <= Z.of_nat (length dgram).
Proof.
  unfold async_receive. simpl.
  rewrite length_app, length_firstn, length_skipn. lia.
Qed.

End RecordFacts.

(** ** The receive loop *)

Module CallFacts.
Import Event Netlink Monitor LoadFacts WalkFacts StepFacts AgreeFacts RecordFacts.

Lemma wait_loop_received buf ev dgram pending buf' len :
  async_receive buf dgram = (buf', len) ->
  wait_loop buf ev (Received dgram :: pending)
  = match walk buf' 0 len ev with
    | WalkEnd ev' =>
        if ev' =? kNone then wait_loop buf' ev' pending else Returned ev' pending
    | WalkThrow err => SystemError err
    | WalkOutOfBounds => OutOfBounds
    | WalkSpins => Spins
    end.
Proof. intros E. cbn [wait_loop wait_types]. rewrite E. reflexivity. Qed.

Lemma wait_types_received buf ev dgram pending buf' len :
  async_receive buf dgram = (buf', len) ->
  wait_types buf ev (Received dgram :: pending)
  = walk_types buf' 0 len ++
    match walk buf' 0 len ev with
    | WalkEnd ev' =>
        if ev' =? kNone then wait_types buf' ev' pending else []
    | _ => []
    end.
Proof. intros E. cbn [wait_loop wait_types]. rewrite E. reflexivity. Qed.

(** A receive cycle that leaves the accumulator at [kNone] is followed by
    another receive. *)
Lemma wait_retries buf dgram pending buf' len :
  async_receive buf dgram = (buf', len) ->
  walk buf' 0 len kNone = WalkEnd kNone ->
  wait_loop buf kNone (Received dgram :: pending) = wait_loop buf' kNone pending
  /\ wait_types buf kNone (Received dgram :: pending)
     = walk_types buf' 0 len ++ wait_types buf' kNone pending.
Proof.
  intros E Hw.
  rewrite (wait_loop_received _ _ _ _ _ _ E),
    (wait_types_received _ _ _ _ _ _ E), Hw.
  split; reflexivity.
Qed.

Lemma receives_wait buf sock buf1 sock1 :
  receives buf sock buf1 sock1 ->
  wait_loop buf kNone sock = wait_loop buf1 kNone sock1 /\
  exists before,
    wait_types buf kNone sock = before ++ wait_types buf1 kNone sock1 /\
    union_flags before = kNone.
Proof.
  induction 1 as [|buf1 buf2 dgram pending len _ [IH1 [before [IH2 IH3]]] E Hw].
  - split; [reflexivity|]. exists []. split; reflexivity.
  - destruct (wait_retries _ _ pending _ _ E Hw) as [E1 E2].
    split; [congruence|].
    exists (before ++ walk_types buf2 0 len). split.
    + rewrite IH2, E2, app_assoc. reflexivity.
    + rewrite union_flags_app, IH3.
      apply walk_end_union in Hw. unfold op_or, kNone in *. simpl in *.
      now rewrite <- Hw.
Qed.

Lemma receives_prepend buf dgram pending buf' len buf1 sock1 :
  async_receive buf dgram = (buf', len) ->
  walk buf' 0 len kNone = WalkEnd kNone ->
  receives buf' pending buf1 sock1 ->
  receives buf (Received dgram :: pending) buf1 sock1.
Proof.
  intros E Hw H.
  induction H as [|buf1 buf2 dgram2 pending2 len2 _ IH E2 Hw2].
  - eapply receives_again; [apply receives_first|exact E|exact Hw].
  - eapply receives_again; [exact IH|exact E2|exact Hw2].
Qed.

(** A call that returns does so from a receive cycle whose walk ended with
    the value returned, and that value is not [kNone]. *)
Lemma returned_last_cycle sock : forall buf ev pending,
  wait_loop buf kNone sock = Returned ev pending ->
  ev <> kNone /\
  exists buf1 dgram,
    receives buf sock buf1 (Received dgram :: pending) /\
    walk (fst (async_receive buf1 dgram)) 0 (snd (async_receive buf1 dgram))
      kNone = WalkEnd ev.
Proof.
  induction sock as [|[dgram|ec] sock IH]; intros buf ev pending H;
    try discriminate.
  destruct (async_receive buf dgram) as [buf' len] eqn:E.
  rewrite (wait_loop_received _ _ _ _ _ _ E) in H.
  destruct (walk buf' 0 len kNone) as [ev'| | |] eqn:Hw; try discriminate.
  destruct (Z.eqb_spec ev' kNone) as [->|Hnz].
  - apply IH in H as [Hev [buf1 [d1 [Hr Hw1]]]]. split; [assumption|].
    exists buf1, d1. split; [|assumption].
    eapply receives_prepend; eassumption.
  - injection H as <- <-. split; [assumption|].
    exists buf, dgram. split; [apply receives_first|].
    rewrite E. exact Hw.
Qed.

(** The value a call returns is the OR, over the records the call classified,
    of the table's flags, on top of the accumulator it was entered with. *)
Lemma returned_is_union sock : forall buf ev0 ev pending,
  wait_loop buf ev0 sock = Returned ev pending ->
  ev = op_or ev0 (union_flags (wait_types buf ev0 sock)).
Proof.
  induction sock as [|[dgram|ec] sock IH]; intros buf ev0 ev pending H;
    try discriminate.
  destruct (async_receive buf dgram) as [buf' len] eqn:E.
  rewrite (wait_loop_received _ _ _ _ _ _ E) in H.
  rewrite (wait_types_received _ _ _ _ _ _ E).
  destruct (walk buf' 0 len ev0) as [ev'| | |] eqn:Hw; try discriminate.
  apply walk_end_union in Hw.
  destruct (Z.eqb_spec ev' kNone) as [Hz|Hnz].
  - apply IH in H. rewrite union_flags_app.
    rewrite H, Hz. rewrite Hz in Hw. unfold op_or, kNone in *.
    rewrite Z.lor_assoc, <- Hw. reflexivity.
  - injection H as <- <-. now rewrite app_nil_r.
Qed.

End CallFacts.

(** ** Datagrams whose length is a multiple of the alignment *)

Module AlignedFacts.
Import Event Netlink Monitor.
Import LoadFacts WalkFacts StepFacts AgreeFacts RecordFacts CallFacts.

(** A record that fails [NLMSG_OK] ends the walk; the accumulator is kept. *)
Lemma walk_stops_at_bad_record buf msg len ev :
  NLMSG_OK buf msg len = Some false -> walk buf msg len ev = WalkEnd ev.
Proof. intros H. now rewrite walk_unfold, H. Qed.

(** When the received length is a multiple of the alignment, [len] is at
    every loop head the number of received bytes from [msg] on. *)
Lemma aligned_walk_exact buf len0 ev0 tys msg len ev :
  len0 mod 4 = 0 -> 0 <= len0 < 2 ^ 64 ->
  reaches buf (0, len0, ev0) tys (msg, len, ev) ->
  msg + len = len0 /\ len mod 4 = 0 /\ 0 <= len.
Proof.
  intros Hal Hlen0 H. remember (0, len0, ev0) as c0 eqn:E0.
  remember (msg, len, ev) as c eqn:E. revert msg len ev E.
  induction H as [c|c c' c'' tys ty Hr IH Hit]; intros msg len ev E.
  - rewrite E0 in E. injection E as <- <- <-. lia.
  - subst c c''. destruct c' as [[msg1 len1] ev1].
    destruct (IH eq_refl _ _ _ eq_refl) as [E1 [E2 E3]].
    apply iteration_inv in Hit as [l [Hok [_ [_ [_ [Hl [Hadv E]]]]]]].
    injection E as -> -> ->.
    apply NLMSG_OK_true in Hok as [l' [Hl' [H16 [Hle _]]]].
    assert (l' = l) as -> by congruence.
    pose proof (nlmsg_len_range _ _ _ Hl) as Hrange.
    pose proof (nlmsg_len_inside _ _ _ Hl) as Hinside.
    unfold sizeof_nlmsghdr in *.
    assert (Hsmall : l <= 2 ^ 32 - 4).
    { destruct (Z.le_gt_cases l (2 ^ 32 - 4)) as [|Hb]; [assumption|].
      exfalso. apply Hadv. rewrite NLMSG_ALIGN_spec. unfold uint.
      change (2 ^ 32) with 4294967296 in *.
      replace ((l + 3) mod 4294967296) with (l + 3 - 4294967296)
        by (apply Z.mod_unique with 1; lia).
      rewrite Z.div_small; lia. }
    destruct (NLMSG_ALIGN_round l) as [[Ha1 Ha2] Ha3]; [lia|].
    pose proof (Z.div_mod len1 4). pose proof (Z.div_mod (NLMSG_ALIGN l) 4).
    assert (Hfit : NLMSG_ALIGN l <= len1) by lia.
    rewrite size_t_small by lia.
    split; [lia|]. split; [|lia].
    rewrite Zminus_mod, E2, Ha3. reflexivity.
Qed.

(** So every record such a walk classifies lies within the received bytes. *)
Lemma aligned_walk_in_bounds buf len0 ev0 tys msg len ev l :
  len0 mod 4 = 0 -> 0 <= len0 < 2 ^ 64 ->
  reaches buf (0, len0, ev0) tys (msg, len, ev) ->
  NLMSG_OK buf msg len = Some true ->
  nlmsg_len buf msg = Some l ->
  0 <= msg /\ msg + l <= len0.
Proof.
  intros Hal Hlen0 Hreach Hok Hl.
  destruct (aligned_walk_exact _ _ _ _ _ _ _ Hal Hlen0 Hreach) as [E1 [E2 E3]].
  apply NLMSG_OK_true in Hok as [l' [Hl' [H16 [Hle _]]]].
  assert (l' = l) as -> by congruence.
  apply nlmsg_len_inside in Hl. lia.
Qed.

(** An advance of zero bytes leaves the loop variables as they are, and a
    second pass through the [switch] leaves the accumulator as it is. *)
Lemma zero_advance_repeats buf msg len ev ev' l :
  0 <= len < 2 ^ 64 ->
  NLMSG_ALIGN l = 0 ->
  dispatch buf msg ev = Break ev' ->
  NLMSG_NEXT l msg len = (msg, len) /\ dispatch buf msg ev' = Break ev'.
Proof.
  intros Hlen Hz Hd. unfold NLMSG_NEXT. rewrite Hz, Z.add_0_r, Z.sub_0_r.
  rewrite size_t_small by assumption. split; [reflexivity|].
  apply dispatch_break_inv in Hd as [ty [Hty [Hdn [He ->]]]].
  rewrite (dispatch_table _ _ _ ty) by assumption.
  unfold op_or. now rewrite <- Z.lor_assoc, Z.lor_diag.
Qed.

(** Such a walk looks at received bytes only: it ends the same in any two
    arrays that hold the same received bytes. *)
Lemma aligned_walk_agree buf buf' len0 ev0 e :
  len0 mod 4 = 0 -> 0 <= len0 < 2 ^ 64 ->
  agree_upto len0 buf buf' ->
  walk buf 0 len0 ev0 = WalkEnd e ->
  walk buf' 0 len0 ev0 = WalkEnd e.
Proof.
  intros Hal Hlen0 Hag Hw.
  destruct (walk_reaches_end buf 0 len0 ev0)
    as [tys [msg [len [ev [Hreach Hn]]]]].
  destruct (reaches_walk _ _ _ _ _ _ _ _ Hreach) as [Ew _].
  rewrite Ew in Hw.
  destruct (walk_end_terminal _ _ _ _ _ Hn Hw) as [-> Hterm].
  destruct (aligned_walk_exact _ _ _ _ _ _ _ Hal Hlen0 Hreach) as [E1 [E2 E3]].
  assert (Hreach' : reaches buf' (0, len0, ev0) tys (msg, len, ev)).
  { apply (reaches_agree buf); [assumption|].
    apply (agree_upto_le _ len0); [lia|assumption]. }
  destruct (reaches_walk _ _ _ _ _ _ _ _ Hreach') as [Ew' _].
  rewrite Ew'. unfold sizeof_nlmsghdr in *.
  destruct Hterm as [Hbad|[Hok Hty]].
  - apply walk_stops_at_bad_record.
    apply (NLMSG_OK_agree_any len0 buf); auto.
    unfold sizeof_nlmsghdr. lia.
  - apply NLMSG_OK_true in Hok as Hok'.
    destruct Hok' as [l [_ [_ [_ H16]]]]. unfold sizeof_nlmsghdr in *.
    apply walk_at_done.
    + apply (NLMSG_OK_agree len0 buf); auto; lia.
    + apply (nlmsg_type_agree len0 buf); auto; lia.
Qed.

(** The same datagram received into two arrays of one size. *)
Lemma received_arrays_agree buf buf' dgram :
  length buf = length buf' ->
  snd (async_receive buf dgram) = snd (async_receive buf' dgram) /\
  agree_upto (snd (async_receive buf dgram))
    (fst (async_receive buf dgram)) (fst (async_receive buf' dgram)).
Proof.
  intros Hlen. unfold async_receive, agree_upto. simpl. rewrite <- Hlen.
  split; [reflexivity|].
  rewrite Nat2Z.id.
  set (n := Nat.min (length dgram) (length buf)).
  assert (Hn : length (firstn n dgram) = n)
    by (rewrite length_firstn; unfold n; lia).
  rewrite !firstn_app, Hn, Nat.sub_diag. reflexivity.
Qed.

(** A call that returns, on datagrams of such lengths, returns the same from
    any array of that size: what the array held before does not matter. *)
Lemma wait_loop_array_irrelevant sock : forall buf buf' ev0 ev rest,
  length buf = length buf' ->
  Z.of_nat (length buf) mod 4 = 0 ->
  Z.of_nat (length buf) < 2 ^ 64 ->
  Forall whole_words sock ->
  wait_loop buf ev0 sock = Returned ev rest ->
  wait_loop buf' ev0 sock = Returned ev rest.
Proof.
  induction sock as [|[dgram|ec] sock IH];
    intros buf buf' ev0 ev rest Hlen Hal Hsize Hall H; try discriminate.
  inversion Hall as [|c sock' Hd Hall']; subst. simpl in Hd.
  change NLMSG_ALIGNTO with 4 in Hd.
  destruct (received_arrays_agree buf buf' dgram Hlen) as [En Hag].
  destruct (async_receive_length buf dgram) as [L1 [L2 L3]].
  destruct (async_receive_length buf' dgram) as [L1' _].
  destruct (async_receive buf dgram) as [buf1 n] eqn:E.
  destruct (async_receive buf' dgram) as [buf1' n'] eqn:E'.
  simpl in En, Hag, L1, L2, L3, L1'. subst n'.
  rewrite (wait_loop_received _ _ _ _ _ _ E) in H.
  rewrite (wait_loop_received _ _ _ _ _ _ E').
  assert (Hn : n mod 4 = 0).
  { assert (n = Z.of_nat (Nat.min (length dgram) (length buf))) as ->
      by (unfold async_receive in E; now injection E as _ <-).
    destruct (Nat.min_spec (length dgram) (length buf)) as [[_ ->]|[_ ->]];
      assumption. }
  destruct (walk buf1 0 n ev0) as [ev'| | |] eqn:Hw; try discriminate.
  rewrite (aligned_walk_agree buf1 buf1' n ev0 ev') by (auto; lia).
  destruct (ev' =? kNone).
  - apply (IH buf1 buf1'); auto; congruence.
  - exact H.
Qed.

End AlignedFacts.

(** ** [WaitForChangeEvent] *)

Module MonitorFacts.
Import Event Netlink Monitor Samples.
Import LoadFacts WalkFacts StepFacts AgreeFacts RecordFacts CallFacts.
Import AlignedFacts.

Lemma returned_consumes sock : forall buf ev0 ev pending,
  wait_loop buf ev0 sock = Returned ev pending ->
  (length pending < length sock)%nat.
Proof.
  induction sock as [|[dgram|ec] sock IH]; intros buf ev0 ev pending H;
    try discriminate.
  destruct (async_receive buf dgram) as [buf' len] eqn:E.
  rewrite (wait_loop_received _ _ _ _ _ _ E) in H.
  destruct (walk buf' 0 len ev0) as [ev'| | |]; try discriminate.
  destruct (ev' =? kNone).
  - apply IH in H. simpl. lia.
  - injection H as <- <-. simpl. lia.
Qed.

(** C1: a call of [WaitForChangeEvent] that returns never returns [kNone];
    and a receive cycle whose walk leaves the accumulator at [kNone] does not
    end the call: the loop goes on with the rest of the socket, so a value is
    returned only after a further receive. *)
Theorem wait_never_returns_none (buf : buffer) (sock : socket) :
  (forall ev pending,
      WaitForChangeEvent buf sock = Returned ev pending -> ev <> kNone) /\
  (forall buf1 dgram pending buf2 len,
      receives buf sock buf1 (Received dgram :: pending) ->
      async_receive buf1 dgram = (buf2, len) ->
      walk buf2 0 len kNone = WalkEnd kNone ->
      WaitForChangeEvent buf sock = wait_loop buf2 kNone pending /\
      forall ev rest,
        WaitForChangeEvent buf sock = Returned ev rest ->
        (length rest < length pending)%nat).
Proof.
  unfold WaitForChangeEvent. split.
  - intros ev pending H. now apply returned_last_cycle in H.
  - intros buf1 dgram pending buf2 len Hr E Hw.
    apply receives_wait in Hr as [E1 _].
    destruct (wait_retries _ _ pending _ _ E Hw) as [E2 _].
    assert (E3 : wait_loop buf kNone sock = wait_loop buf2 kNone pending)
      by congruence.
    split; [exact E3|].
    intros ev rest H. rewrite E3 in H. now apply returned_consumes in H.
Qed.

Lemma wait_never_returns_none_witness :
  WaitForChangeEvent zero_buffer
    [Received (noop ++ done); Received (new_route ++ done)]
  = Returned kRouteChanged [] /\
  kRouteChanged <> kNone /\
  walk (fst (async_receive zero_buffer (noop ++ done))) 0 32 kNone
  = WalkEnd kNone /\
  WaitForChangeEvent zero_buffer
    [Received (noop ++ done); Received (new_route ++ done)]
  = wait_loop (fst (async_receive zero_buffer (noop ++ done))) kNone
      [Received (new_route ++ done)].
Proof.
  assert (E : WaitForChangeEvent zero_buffer
                [Received (noop ++ done); Received (new_route ++ done)]
              = Returned kRouteChanged []) by (vm_compute; reflexivity).
  assert (W : walk (fst (async_receive zero_buffer (noop ++ done))) 0 32 kNone
              = WalkEnd kNone) by (vm_compute; reflexivity).
  split; [exact E|]. split; [|split; [exact W|]].
  - exact (proj1 (wait_never_returns_none zero_buffer
                    [Received (noop ++ done); Received (new_route ++ done)])
             kRouteChanged [] E).
  - refine (proj1 (proj2 (wait_never_returns_none zero_buffer
                            [Received (noop ++ done);
                             Received (new_route ++ done)])
                     zero_buffer (noop ++ done) [Received (new_route ++ done)]
                     (fst (async_receive zero_buffer (noop ++ done))) 32
                     _ _ W)).
    + apply receives_first.
    + vm_compute. reflexivity.
Defined.

(** C3: a record that passes [NLMSG_OK] and whose type code is neither DONE
    nor ERROR leaves the [switch] by [break], with the flag of the table ORed
    into the accumulator: the interface flag for NEW-LINK, the address flag
    for NEW-ADDR and DEL-ADDR, the route flag for NEW-ROUTE and DEL-ROUTE,
    and nothing for any other type code; the walk goes on with the next
    record and nothing is thrown. *)
Theorem type_code_table (buf : buffer) (msg len : Z)
    (received_events : NetworkChangeEvent) (ty : Z) :
  NLMSG_OK buf msg len = Some true ->
  nlmsg_type buf msg = Some ty ->
  ty <> NLMSG_DONE -> ty <> NLMSG_ERROR ->
  dispatch buf msg received_events
  = Break (op_or received_events (table_flag ty)) /\
  (ty = RTM_NEWLINK -> table_flag ty = kNicChanged) /\
  (ty = RTM_NEWADDR \/ ty = RTM_DELADDR -> table_flag ty = kAddressChanged) /\
  (ty = RTM_NEWROUTE \/ ty = RTM_DELROUTE -> table_flag ty = kRouteChanged) /\
  (ty <> RTM_NEWLINK -> ty <> RTM_NEWADDR -> ty <> RTM_DELADDR ->
   ty <> RTM_NEWROUTE -> ty <> RTM_DELROUTE ->
   dispatch buf msg received_events = Break received_events) /\
  (forall l, nlmsg_len buf msg = Some l -> NLMSG_ALIGN l <> 0 ->
     walk buf msg len received_events
     = walk buf (msg + NLMSG_ALIGN l) (size_t (len - NLMSG_ALIGN l))
         (op_or received_events (table_flag ty))).
Proof.
  intros Hok Hty Hd He.
  pose proof (dispatch_table buf msg received_events ty Hty Hd He) as Hdis.
  split; [exact Hdis|].
  split; [intros ->; reflexivity|].
  split; [intros [->| ->]; reflexivity|].
  split; [intros [->| ->]; reflexivity|].
  split.
  - intros H1 H2 H3 H4 H5. rewrite Hdis. unfold table_flag.
    rewrite (proj2 (Z.eqb_neq _ _) H1), (proj2 (Z.eqb_neq _ _) H2),
      (proj2 (Z.eqb_neq _ _) H3), (proj2 (Z.eqb_neq _ _) H4),
      (proj2 (Z.eqb_neq _ _) H5).
    unfold op_or, kNone. now rewrite Z.lor_0_r.
  - intros l Hl Hadv.
    pose proof (iteration_intro buf msg len received_events ty l
                  Hok Hty Hd He Hl Hadv) as Hit.
    now apply walk_iteration in Hit.
Qed.

Lemma type_code_table_witness :
  dispatch (new_addr ++ done) 0 kNicChanged
  = Break (op_or kNicChanged kAddressChanged).
Proof.
  refine (proj1 (type_code_table (new_addr ++ done) 0 32 kNicChanged
                   RTM_NEWADDR _ _ _ _)).
  - reflexivity.
  - reflexivity.
  - discriminate.
  - discriminate.
Defined.


(** C2: when the walk of a received datagram comes to a record of type ERROR,
    the call fails with a [std::system_error] carrying the [int] found at
    [NLMSG_DATA] of that record (the [error] field of its [nlmsgerr]
    payload), whatever flags the accumulator holds by then, and no value is
    returned; no record behind it is looked at: the records classified by the
    call are those met before the ERROR record, and the bytes after the error
    field do not matter.  The error field is there to be read for every
    record that declares at least the 20 bytes up to its end and lies in the
    array; the code reads it without looking at the declared length, and the
    only other outcome is a read outside the array. *)
Theorem error_record_fails_call (buf : buffer) (sock : socket)
    (buf1 : buffer) (dgram : list byte) (pending : socket)
    (buf2 : buffer) (len0 : Z) (tys : list Z) (msg len : Z)
    (ev : NetworkChangeEvent) :
  receives buf sock buf1 (Received dgram :: pending) ->
  async_receive buf1 dgram = (buf2, len0) ->
  reaches buf2 (0, len0, kNone) tys (msg, len, ev) ->
  NLMSG_OK buf2 msg len = Some true ->
  nlmsg_type buf2 msg = Some NLMSG_ERROR ->
  WaitForChangeEvent buf sock
  = match nlmsgerr_error buf2 msg with
    | Some err => SystemError err
    | None => OutOfBounds
    end /\
  (forall ev' rest, WaitForChangeEvent buf sock <> Returned ev' rest) /\
  (exists before,
      wait_types buf kNone sock = before ++ tys /\
      union_flags before = kNone) /\
  (forall l, nlmsg_len buf2 msg = Some l -> 20 <= l ->
             msg + l <= Z.of_nat (length buf2) ->
             exists err, nlmsgerr_error buf2 msg = Some err /\
                         WaitForChangeEvent buf sock = SystemError err) /\
  (forall err buf3,
      nlmsgerr_error buf2 msg = Some err ->
      agree_upto (msg + 20) buf2 buf3 ->
      walk buf3 0 len0 kNone = WalkThrow err).
Proof.
  intros Hrec E Hreach Hok Hty.
  destruct (reaches_walk _ _ _ _ _ _ _ _ Hreach) as [Ew [Et _]].
  destruct (walk_at_error _ _ _ ev Hok Hty) as [Ew' Et'].
  apply receives_wait in Hrec as [E1 [before [E2 E3]]].
  assert (Hcall : WaitForChangeEvent buf sock
                  = match nlmsgerr_error buf2 msg with
                    | Some err => SystemError err
                    | None => OutOfBounds
                    end).
  { unfold WaitForChangeEvent. rewrite E1.
    rewrite (wait_loop_received _ _ _ _ _ _ E), Ew, Ew'.
    destruct (nlmsgerr_error buf2 msg); reflexivity. }
  split; [exact Hcall|].
  split; [intros ev' rest; rewrite Hcall;
          destruct (nlmsgerr_error buf2 msg); discriminate|].
  split; [|split].
  - exists before. split; [|exact E3].
    rewrite E2, (wait_types_received _ _ _ _ _ _ E), Ew, Ew', Et, Et'.
    destruct (nlmsgerr_error buf2 msg); now rewrite !app_nil_r.
  - intros l Hl H20 Hin.
    destruct (nlmsgerr_error_inside buf2 msg l) as [err Herr];
      [apply nlmsg_len_inside in Hl; lia|assumption|assumption|].
    exists err. split; [exact Herr|]. now rewrite Hcall, Herr.
  - intros err buf3 Herr Hag.
    assert (Hreach3 : reaches buf3 (0, len0, kNone) tys (msg, len, ev)).
    { apply (reaches_agree buf2); [assumption|].
      apply (agree_upto_le _ (msg + 20)); [lia|assumption]. }
    destruct (reaches_walk _ _ _ _ _ _ _ _ Hreach3) as [Ew3 _].
    rewrite Ew3.
    destruct (walk_at_error buf3 msg len ev) as [Ew3' _].
    + apply (NLMSG_OK_agree (msg + 20) buf2); auto; lia.
    + apply (nlmsg_type_agree (msg + 20) buf2); auto; lia.
    + rewrite Ew3'.
      now rewrite (nlmsgerr_error_agree (msg + 20) buf2 buf3 msg err Hag
                     (Z.le_refl _) Herr).
Qed.

Lemma error_record_fails_call_witness :
  WaitForChangeEvent zero_buffer [Received (new_link ++ error_13 ++ new_route)]
  = SystemError 13 /\
  exists err,
    nlmsgerr_error
      (fst (async_receive zero_buffer (new_link ++ error_13 ++ new_route))) 16
    = Some err /\
    WaitForChangeEvent zero_buffer
      [Received (new_link ++ error_13 ++ new_route)]
    = SystemError err.
Proof.
  assert (H : reaches
                (fst (async_receive zero_buffer
                        (new_link ++ error_13 ++ new_route)))
                (0, 68, kNone) ([] ++ [RTM_NEWLINK]) (16, 52, kNicChanged)).
  { apply (reaches_next _ (0, 68, kNone) (0, 68, kNone) _ [] RTM_NEWLINK).
    - apply reaches_here.
    - vm_compute. reflexivity. }
  pose proof (error_record_fails_call zero_buffer
                [Received (new_link ++ error_13 ++ new_route)]
                zero_buffer (new_link ++ error_13 ++ new_route) []
                (fst (async_receive zero_buffer
                        (new_link ++ error_13 ++ new_route)))
                68 [RTM_NEWLINK] 16 52 kNicChanged
                (receives_first _ _) eq_refl H eq_refl eq_refl)
    as [H1 [_ [_ [H4 _]]]].
  split; [exact H1|].
  apply (H4 36); [reflexivity|lia|vm_compute; discriminate].
Defined.

(** C5: when the walk of a received datagram comes to a record of type DONE,
    the walk ends there with the accumulator as it is: the records classified
    are those met before the DONE record, and whatever bytes follow its
    header, records included, have no part in the result; the call then
    returns the accumulator, or receives again when it is [kNone]. *)
Theorem done_record_ends_walk (buf1 : buffer) (dgram : list byte)
    (pending : socket) (buf2 : buffer) (len0 : Z) (ev0 : NetworkChangeEvent)
    (tys : list Z) (msg len : Z) (ev : NetworkChangeEvent) :
  async_receive buf1 dgram = (buf2, len0) ->
  reaches buf2 (0, len0, ev0) tys (msg, len, ev) ->
  NLMSG_OK buf2 msg len = Some true ->
  nlmsg_type buf2 msg = Some NLMSG_DONE ->
  walk buf2 0 len0 ev0 = WalkEnd ev /\
  walk_types buf2 0 len0 = tys /\
  ev = op_or ev0 (union_flags tys) /\
  (forall buf3, agree_upto (msg + 6) buf2 buf3 ->
                walk buf3 0 len0 ev0 = WalkEnd ev /\
                walk_types buf3 0 len0 = tys) /\
  wait_loop buf1 ev0 (Received dgram :: pending)
  = (if ev =? kNone then wait_loop buf2 ev pending else Returned ev pending).
Proof.
  intros E Hreach Hok Hty.
  destruct (reaches_walk _ _ _ _ _ _ _ _ Hreach) as [Ew [Et Ev]].
  destruct (walk_at_done _ _ _ ev Hok Hty) as [Ew' Et'].
  assert (Hw : walk buf2 0 len0 ev0 = WalkEnd ev) by congruence.
  split; [exact Hw|].
  split; [rewrite Et, Et'; apply app_nil_r|].
  split; [exact Ev|]. split.
  - intros buf3 Hag.
    assert (Hreach3 : reaches buf3 (0, len0, ev0) tys (msg, len, ev)).
    { apply (reaches_agree buf2); [assumption|].
      apply (agree_upto_le _ (msg + 6)); [lia|assumption]. }
    destruct (reaches_walk _ _ _ _ _ _ _ _ Hreach3) as [Ew3 [Et3 _]].
    destruct (walk_at_done buf3 msg len ev) as [Ew3' Et3'].
    + apply (NLMSG_OK_agree (msg + 6) buf2); auto; lia.
    + apply (nlmsg_type_agree (msg + 6) buf2); auto; lia.
    + split; [congruence|]. rewrite Et3, Et3'. apply app_nil_r.
  - rewrite (wait_loop_received _ _ _ _ _ _ E), Hw. reflexivity.
Qed.

Lemma done_record_ends_walk_witness :
  wait_loop zero_buffer kNone [Received (new_link ++ done ++ new_route)]
  = Returned kNicChanged [].
Proof.
  refine (proj2 (proj2 (proj2 (proj2
            (done_record_ends_walk zero_buffer
               (new_link ++ done ++ new_route) []
               (fst (async_receive zero_buffer (new_link ++ done ++ new_route)))
               48 kNone [RTM_NEWLINK] 16 32 kNicChanged _ _ _ _))))).
  - vm_compute. reflexivity.
  - apply (reaches_next _ (0, 48, kNone) (0, 48, kNone) _ [] RTM_NEWLINK).
    + apply reaches_here.
    + vm_compute. reflexivity.
  - vm_compute. reflexivity.
  - vm_compute. reflexivity.
Defined.

(** C10: a call starts from the accumulator [kNone] and from an array of its
    own, so the value it returns is the OR of the table's flags of the
    records classified in this call, whatever an earlier call on the same
    socket has returned; and when the datagrams it receives have lengths
    that are multiples of the alignment, the value does not depend on what
    the array held before the call either. *)
Theorem later_call_starts_from_none (bufA : buffer) (sockA : socket)
    (evA : NetworkChangeEvent) (pending : socket) (bufB : buffer)
    (evB : NetworkChangeEvent) (pending' : socket) :
  WaitForChangeEvent bufA sockA = Returned evA pending ->
  WaitForChangeEvent bufB pending = Returned evB pending' ->
  WaitForChangeEvent bufB pending = wait_loop bufB kNone pending /\
  evB = union_flags (wait_types bufB kNone pending) /\
  (length bufB = Z.to_nat kRecvBufferSize ->
   Forall whole_words pending ->
   forall bufB', length bufB' = Z.to_nat kRecvBufferSize ->
                 WaitForChangeEvent bufB' pending = Returned evB pending').
Proof.
  intros _ HB. split; [reflexivity|]. split.
  - apply returned_is_union in HB. exact HB.
  - intros HlenB Hall bufB' HlenB'. unfold WaitForChangeEvent in *.
    apply (wait_loop_array_irrelevant pending bufB bufB'); auto.
    + congruence.
    + rewrite HlenB. reflexivity.
    + rewrite HlenB. reflexivity.
Qed.

Lemma later_call_starts_from_none_witness :
  WaitForChangeEvent zero_buffer
    [Received (new_link ++ done); Received (new_route ++ done)]
  = Returned kNicChanged [Received (new_route ++ done)] /\
  WaitForChangeEvent zero_buffer [Received (new_route ++ done)]
  = Returned kRouteChanged [] /\
  kRouteChanged
  = union_flags (wait_types zero_buffer kNone [Received (new_route ++ done)]).
Proof.
  assert (EA : WaitForChangeEvent zero_buffer
                 [Received (new_link ++ done); Received (new_route ++ done)]
               = Returned kNicChanged [Received (new_route ++ done)])
    by (vm_compute; reflexivity).
  assert (EB : WaitForChangeEvent zero_buffer [Received (new_route ++ done)]
               = Returned kRouteChanged [])
    by (vm_compute; reflexivity).
  split; [exact EA|]. split; [exact EB|].
  exact (proj1 (proj2 (later_call_starts_from_none _ _ _ _ _ _ _ EA EB))).
Defined.

Lemma permutation_concat_length (rs1 rs2 : list (list byte)) :
  Permutation rs1 rs2 -> length (concat rs1) = length (concat rs2).
Proof.
  induction 1 as [|r l l' _ IH|a b l|l l' l'' _ IH1 _ IH2]; simpl.
  - reflexivity.
  - rewrite !length_app. lia.
  - rewrite !length_app. lia.
  - congruence.
Qed.

(** The walk over a received datagram made of whole records, none of them
    DONE or ERROR. *)
Lemma walk_received_records buf rs ev :
  Z.of_nat (length buf) < 2 ^ 64 ->
  (length (concat rs) <= length buf)%nat ->
  Forall (fun r => ordinary r = true) rs ->
  walk (fst (async_receive buf (concat rs))) 0
    (snd (async_receive buf (concat rs))) ev
  = WalkEnd (op_or ev (union_flags (map type_of rs))).
Proof.
  intros Hbuf Hfit Hall. rewrite async_receive_fits by assumption. simpl.
  apply (walk_records rs [] (skipn (length (concat rs)) buf) ev Hall). lia.
Qed.

(** C6 (amended): the value a call returns is the OR of the table's flags
    over the records the call classified; and for a datagram that fits the
    array and is made of whole records, none of them DONE or ERROR, the walk
    gives the same accumulator for every order of the records, so that the
    call returns the same value when that value is not [kNone]. *)
Theorem permuted_ordinary_records (buf : buffer) (rs1 rs2 : list (list byte))
    (pending : socket) :
  length buf = Z.to_nat kRecvBufferSize ->
  (length (concat rs1) <= length buf)%nat ->
  Forall (fun r => ordinary r = true) rs1 ->
  Permutation rs1 rs2 ->
  let u := union_flags (map type_of rs1) in
  (forall sock ev rest,
      WaitForChangeEvent buf sock = Returned ev rest ->
      ev = union_flags (wait_types buf kNone sock)) /\
  walk (fst (async_receive buf (concat rs1))) 0
    (snd (async_receive buf (concat rs1))) kNone = WalkEnd u /\
  walk (fst (async_receive buf (concat rs2))) 0
    (snd (async_receive buf (concat rs2))) kNone = WalkEnd u /\
  (u <> kNone ->
   WaitForChangeEvent buf (Received (concat rs1) :: pending)
   = Returned u pending /\
   WaitForChangeEvent buf (Received (concat rs2) :: pending)
   = Returned u pending).
Proof.
  intros Hbuf Hfit Hall Hperm u. subst u.
  set (u := union_flags (map type_of rs1)).
  assert (Hsize : Z.of_nat (length buf) < 2 ^ 64)
    by (rewrite Hbuf; vm_compute; reflexivity).
  assert (Hall2 : Forall (fun r => ordinary r = true) rs2)
    by (eapply Permutation_Forall; eassumption).
  assert (Hfit2 : (length (concat rs2) <= length buf)%nat)
    by (rewrite <- (permutation_concat_length rs1 rs2 Hperm); assumption).
  assert (Hu : union_flags (map type_of rs2) = u)
    by (symmetry; apply union_flags_permutation, Permutation_map, Hperm).
  pose proof (walk_received_records buf rs1 kNone Hsize Hfit Hall) as W1.
  pose proof (walk_received_records buf rs2 kNone Hsize Hfit2 Hall2) as W2.
  rewrite Hu in W2. fold u in W1.
  change (op_or kNone u) with u in W1, W2.
  split; [intros sock ev rest H; apply returned_is_union in H; exact H|].
  split; [exact W1|]. split; [exact W2|].
  intros Hnz. unfold WaitForChangeEvent. split.
  - rewrite (wait_loop_received buf kNone (concat rs1) pending _ _
               (surjective_pairing _)), W1.
    cbv beta iota. now rewrite (proj2 (Z.eqb_neq _ _) Hnz).
  - rewrite (wait_loop_received buf kNone (concat rs2) pending _ _
               (surjective_pairing _)), W2.
    cbv beta iota. now rewrite (proj2 (Z.eqb_neq _ _) Hnz).
Qed.

Lemma permuted_ordinary_records_witness :
  WaitForChangeEvent zero_buffer
    [Received (concat [new_link; noop; new_route])]
  = Returned (op_or kNicChanged kRouteChanged) [] /\
  WaitForChangeEvent zero_buffer
    [Received (concat [new_route; new_link; noop])]
  = Returned (op_or kNicChanged kRouteChanged) [].
Proof.
  refine (proj2 (proj2 (proj2
            (permuted_ordinary_records zero_buffer
               [new_link; noop; new_route] [new_route; new_link; noop] []
               _ _ _ _))) _).
  - reflexivity.
  - vm_compute. lia.
  - repeat constructor.
  - symmetry. apply (Permutation_cons_append [new_link; noop] new_route).
  - vm_compute. discriminate.
Defined.

(** The claim C6 as it stands fails: the order of the records of a datagram
    matters as soon as one of them is DONE.  With NEW-LINK, DONE, NEW-ROUTE
    the call returns the interface flag alone, with NEW-LINK, NEW-ROUTE, DONE
    it returns the route flag too; and with the two records NEW-LINK, DONE
    swapped the datagram yields nothing, so that the call returns what the
    next datagram brings. *)
Lemma permuted_records_change_result :
  Permutation [new_link; done; new_route] [new_link; new_route; done] /\
  Forall (fun r => well_formed r = true) [new_link; done; new_route] /\
  WaitForChangeEvent zero_buffer
    [Received (concat [new_link; done; new_route])]
  = Returned kNicChanged [] /\
  WaitForChangeEvent zero_buffer
    [Received (concat [new_link; new_route; done])]
  = Returned (op_or kNicChanged kRouteChanged) [] /\
  kNicChanged <> op_or kNicChanged kRouteChanged /\
  Permutation [new_link; done] [done; new_link] /\
  WaitForChangeEvent zero_buffer
    [Received (concat [new_link; done]); Received (concat [new_route; done])]
  = Returned kNicChanged [Received (concat [new_route; done])] /\
  WaitForChangeEvent zero_buffer
    [Received (concat [done; new_link]); Received (concat [new_route; done])]
  = Returned kRouteChanged [] /\
  kNicChanged <> kRouteChanged.
Proof.
  split; [apply perm_skip, perm_swap|].
  split; [repeat constructor|].
  split; [vm_compute; reflexivity|].
  split; [vm_compute; reflexivity|].
  split; [discriminate|].
  split; [apply perm_swap|].
  split; [vm_compute; reflexivity|].
  split; [vm_compute; reflexivity|discriminate].
Qed.

(** Nor may a record move to another datagram: the call returns after the
    first datagram that sets a flag. *)
Lemma moved_record_changes_result :
  Permutation (concat [[noop]; [new_link; new_route]])
    (concat [[new_link]; [noop; new_route]]) /\
  WaitForChangeEvent zero_buffer
    [Received (concat [noop]); Received (concat [new_link; new_route])]
  = Returned (op_or kNicChanged kRouteChanged) [] /\
  WaitForChangeEvent zero_buffer
    [Received (concat [new_link]); Received (concat [noop; new_route])]
  = Returned kNicChanged [Received (concat [noop; new_route])].
Proof.
  split; [apply perm_swap|].
  split; vm_compute; reflexivity.
Qed.

(** The same on any array of the capacity: every byte the walk looks at has
    been written by one of the two receives. *)
Lemma odd_length_datagram_any_array (buf : buffer) :
  length buf = Z.to_nat kRecvBufferSize ->
  WaitForChangeEvent buf [Received done_then_route; Received odd_new_link]
  = Returned (op_or kNicChanged kRouteChanged) [].
Proof.
  intros Hlen. unfold WaitForChangeEvent.
  assert (E1 : async_receive buf done_then_route
               = (done_then_route ++ skipn 52 buf, 52))
    by (rewrite async_receive_fits; [reflexivity|rewrite Hlen; vm_compute; lia]).
  rewrite (wait_loop_received _ _ _ _ _ _ E1).
  assert (W1 : walk (done_then_route ++ skipn 52 buf) 0 52 kNone
               = WalkEnd kNone)
    by (apply walk_at_done; vm_compute; reflexivity).
  rewrite W1. cbv beta iota. change (kNone =? kNone) with true. cbv iota.
  assert (E2 : async_receive (done_then_route ++ skipn 52 buf) odd_new_link
               = (odd_new_link ++ skipn 17 (done_then_route ++ skipn 52 buf),
                  17)).
  { rewrite async_receive_fits; [reflexivity|].
    rewrite length_app, length_skipn, Hlen. vm_compute. lia. }
  rewrite (wait_loop_received _ _ _ _ _ _ E2).
  set (buf2 := odd_new_link ++ skipn 17 (done_then_route ++ skipn 52 buf)).
  assert (R : reaches buf2 (0, 17, kNone) [RTM_NEWLINK; RTM_NEWROUTE]
                (36, 2 ^ 64 - 19, op_or kNicChanged kRouteChanged)).
  { apply (reaches_next buf2 _ (20, 2 ^ 64 - 3, kNicChanged) _
             [RTM_NEWLINK] RTM_NEWROUTE).
    - apply (reaches_next buf2 _ (0, 17, kNone) _ [] RTM_NEWLINK).
      + apply reaches_here.
      + vm_compute. reflexivity.
    - vm_compute. reflexivity. }
  destruct (reaches_walk _ _ _ _ _ _ _ _ R) as [-> _].
  assert (W2 : walk buf2 36 (2 ^ 64 - 19) (op_or kNicChanged kRouteChanged)
               = WalkEnd (op_or kNicChanged kRouteChanged))
    by (apply walk_at_done; vm_compute; reflexivity).
  rewrite W2. reflexivity.
Qed.

(** The synthetic datagrams of the test plan. *)
Example new_link_then_done :
  WaitForChangeEvent zero_buffer [Received (new_link ++ done)]
  = Returned kNicChanged [].
Proof. vm_compute. reflexivity. Qed.

Example unrecognized_record_ignored :
  WaitForChangeEvent zero_buffer [Received (new_addr ++ noop ++ done)]
  = Returned kAddressChanged [].
Proof. vm_compute. reflexivity. Qed.

Example error_13_fails :
  WaitForChangeEvent zero_buffer [Received error_13] = SystemError 13.
Proof. vm_compute. reflexivity. Qed.

Example receive_error_fails :
  WaitForChangeEvent zero_buffer [Received (noop ++ done); ReceiveError 9]
  = ReceiveFailed 9.
Proof. vm_compute. reflexivity. Qed.

Example truncated_record_keeps_flags :
  WaitForChangeEvent zero_buffer
    [Received (new_link ++ firstn 12 new_route)]
  = Returned kNicChanged [] /\
  WaitForChangeEvent zero_buffer
    [Received (new_link ++ le_bytes 4 64 ++ le_bytes 2 RTM_NEWROUTE
               ++ repeat x00 10)]
  = Returned kNicChanged [].
Proof. split; vm_compute; reflexivity. Qed.

(** C4 (the code at a datagram whose last record ends off the alignment):
    [odd_new_link] is a datagram of 17 bytes holding one NEW-LINK record of
    declared length 17.  [NLMSG_NEXT] subtracts the aligned length 20 from
    the remaining 17 in [std::size_t]; the remaining length becomes
    2^64 - 3, and the walk goes on behind the received bytes.  After
    [done_then_route] it finds there the NEW-ROUTE record left over from the
    earlier receive and the call returns the route flag too; after a full
    array of records it reads past the end of the array. *)
Theorem odd_length_datagram_walks_past_end :
  length odd_new_link = 17%nat /\
  iteration (fst (async_receive zero_buffer odd_new_link)) (0, 17, kNone)
  = Some (RTM_NEWLINK, (20, 2 ^ 64 - 3, kNicChanged)) /\
  WaitForChangeEvent zero_buffer [Received odd_new_link]
  = Returned kNicChanged [] /\
  WaitForChangeEvent zero_buffer
    [Received done_then_route; Received odd_new_link]
  = Returned (op_or kNicChanged kRouteChanged) [] /\
  wait_types zero_buffer kNone
    [Received done_then_route; Received odd_new_link]
  = [RTM_NEWLINK; RTM_NEWROUTE] /\
  WaitForChangeEvent zero_buffer
    [Received noop_4096; Received odd_new_link_29]
  = OutOfBounds.
Proof.
  repeat split; vm_compute; reflexivity.
Qed.

End MonitorFacts.

(** * Further properties *)

(** ** The operators and the rendering *)

Module EventExtra.
Import Event EventFacts.

Lemma named_bits_range v :
  op_and v (op_or kNicChanged (op_or kAddressChanged kRouteChanged)) = v ->
  0 <= v <= 7.
Proof.
  unfold op_and. change (op_or _ _) with (Z.ones 3).
  rewrite Z.land_ones by lia. intros H.
  pose proof (Z.mod_pos_bound v (2 ^ 3)). change (2 ^ 3) with 8 in *. lia.
Qed.

Lemma named_bit_of_mask v n :
  0 <= n < 3 -> Z.testbit (Z.land v 7) n = Z.testbit v n.
Proof.
  intros Hn. rewrite Z.land_spec.
  assert (n = 0 \/ n = 1 \/ n = 2) as [->|[->| ->]] by lia;
    simpl; apply andb_true_r.
Qed.

Lemma no_named_bits v :
  Z.land v 7 = 0 <->
  has_flag v kNicChanged = false /\ has_flag v kAddressChanged = false /\
  has_flag v kRouteChanged = false.
Proof.
  rewrite has_flag_nic, has_flag_address, has_flag_route. split.
  - intros H. rewrite <- !(named_bit_of_mask v) by lia. rewrite H.
    now rewrite !Z.bits_0.
  - intros [H0 [H1 H2]]. apply Z.bits_inj'. intros n Hn.
    rewrite Z.bits_0, Z.land_spec.
    destruct (Z.ltb_spec n 3) as [Hlt|Hge].
    + assert (n = 0 \/ n = 1 \/ n = 2) as [->|[->| ->]] by lia;
        [rewrite H0|rewrite H1|rewrite H2]; reflexivity.
    + change 7 with (Z.ones 3). rewrite Z.ones_spec_high by lia.
      apply andb_false_r.
Qed.

(** X1: testing a flag after [operator|]: a flag that was ORed in is found
    by [(evt & flag) == flag]; a flag found in one operand is found in the
    OR; and for a flag of a single bit the test on the OR is the disjunction
    of the tests on the operands. *)
Theorem flag_test_after_or (a b f : NetworkChangeEvent) :
  has_flag (op_or a f) f = true /\
  (has_flag a f = true -> has_flag (op_or a b) f = true) /\
  (forall n, 0 <= n ->
     has_flag (op_or a b) (2 ^ n) = has_flag a (2 ^ n) || has_flag b (2 ^ n)).
Proof.
  unfold has_flag, op_and, op_or. repeat split.
  - apply Z.eqb_eq. apply Z.bits_inj'. intros n Hn.
    rewrite Z.land_spec, Z.lor_spec.
    destruct (Z.testbit a n), (Z.testbit f n); reflexivity.
  - intros H. apply Z.eqb_eq in H. apply Z.eqb_eq.
    apply Z.bits_inj'. intros n Hn.
    assert (E : Z.testbit (Z.land a f) n = Z.testbit f n) by now rewrite H.
    rewrite Z.land_spec in E. rewrite Z.land_spec, Z.lor_spec.
    destruct (Z.testbit a n), (Z.testbit b n), (Z.testbit f n);
      simpl in *; congruence.
  - intros n Hn.
    change (Z.land ?x (2 ^ n) =? 2 ^ n) with (has_flag x (2 ^ n)).
    rewrite !has_flag_testbit by assumption. apply Z.lor_spec.
Qed.

Lemma flag_test_after_or_witness :
  has_flag kNicChanged kNicChanged = true /\
  has_flag (op_or kNicChanged kRouteChanged) kNicChanged = true /\
  has_flag (op_or kNicChanged kRouteChanged) (2 ^ 1) = false.
Proof.
  split; [reflexivity|]. split.
  - exact (proj1 (proj2 (flag_test_after_or kNicChanged kRouteChanged
                           kNicChanged)) eq_refl).
  - rewrite (proj2 (proj2 (flag_test_after_or kNicChanged kRouteChanged
                             kNicChanged)) 1 ltac:(lia)).
    reflexivity.
Defined.

(** X2: [operator&] is commutative, associative and idempotent, [kNone]
    annihilates it, it distributes over [operator|], and its result is an
    [unsigned int] as soon as one operand is. *)
Theorem op_and_laws (a b c : NetworkChangeEvent) :
  op_and a b = op_and b a /\
  op_and (op_and a b) c = op_and a (op_and b c) /\
  op_and a a = a /\
  op_and a kNone = kNone /\
  op_and a (op_or b c) = op_or (op_and a b) (op_and a c) /\
  (unsigned_int_range a -> unsigned_int_range (op_and a b)).
Proof.
  unfold op_and, op_or, kNone, unsigned_int_range.
  split; [apply Z.land_comm|].
  split; [symmetry; apply Z.land_assoc|].
  split; [apply Z.land_diag|].
  split; [apply Z.land_0_r|].
  split; [apply Z.land_lor_distr_r|].
  intros Ha.
  assert (E : Z.land a b = Z.land (Z.land a b) (Z.ones 32)).
  { rewrite <- Z.land_assoc, (Z.land_comm b), Z.land_assoc.
    rewrite (Z.land_ones a) by lia. now rewrite Z.mod_small. }
  rewrite E, Z.land_ones by lia. apply Z.mod_pos_bound. lia.
Qed.

Lemma op_and_laws_witness :
  unsigned_int_range (op_and 5 (-1)).
Proof.
  apply (proj2 (proj2 (proj2 (proj2 (proj2 (op_and_laws 5 (-1) 0)))))).
  unfold unsigned_int_range. lia.
Defined.

(** X3: on values made of the three named flags [to_string] is injective:
    two such values with the same rendering are the same value. *)
Theorem to_string_injective (v w : NetworkChangeEvent) :
  op_and v (op_or kNicChanged (op_or kAddressChanged kRouteChanged)) = v ->
  op_and w (op_or kNicChanged (op_or kAddressChanged kRouteChanged)) = w ->
  to_string v = to_string w ->
  v = w.
Proof.
  intros Hv Hw. apply named_bits_range in Hv. apply named_bits_range in Hw.
  assert (Ev : v = 0 \/ v = 1 \/ v = 2 \/ v = 3 \/ v = 4 \/ v = 5 \/ v = 6
               \/ v = 7) by lia.
  assert (Ew : w = 0 \/ w = 1 \/ w = 2 \/ w = 3 \/ w = 4 \/ w = 5 \/ w = 6
               \/ w = 7) by lia.
  clear Hv Hw.
  repeat (destruct Ev as [->|Ev]); try subst v;
    repeat (destruct Ew as [->|Ew]); try subst w;
    intros H; try reflexivity; vm_compute in H; discriminate H.
Qed.

Lemma to_string_injective_witness :
  to_string 5 = to_string (op_or kRouteChanged kNicChanged) /\
  5 = op_or kRouteChanged kNicChanged.
Proof.
  split; [reflexivity|].
  apply (to_string_injective 5 (op_or kRouteChanged kNicChanged));
    reflexivity.
Defined.

Lemma to_string_none_iff v : to_string v = "None"%string <-> v = kNone.
Proof.
  split; [|intros ->; reflexivity].
  intros H. destruct (Z.eq_dec v kNone) as [|Hnz]; [assumption|exfalso].
  rewrite to_string_tokens in H by assumption. unfold tokens in H.
  destruct (has_flag v kNicChanged), (has_flag v kAddressChanged),
    (has_flag v kRouteChanged); discriminate H.
Qed.

Lemma to_string_empty_iff v :
  to_string v = ""%string <-> v <> kNone /\ Z.land v 7 = 0.
Proof.
  split.
  - intros H. destruct (Z.eq_dec v kNone) as [->|Hnz]; [discriminate H|].
    split; [assumption|]. apply no_named_bits.
    rewrite to_string_tokens in H by assumption. unfold tokens in H.
    destruct (has_flag v kNicChanged), (has_flag v kAddressChanged),
      (has_flag v kRouteChanged); try discriminate H; auto.
  - intros [Hnz H]. apply no_named_bits in H as [H0 [H1 H2]].
    rewrite to_string_tokens by assumption. unfold tokens.
    now rewrite H0, H1, H2.
Qed.

Lemma to_string_masked v :
  Z.land v 7 <> 0 -> to_string v = to_string (Z.land v 7).
Proof.
  intros Hm.
  assert (Hnz : v <> kNone) by (intros ->; apply Hm; reflexivity).
  rewrite (to_string_tokens v Hnz), (to_string_tokens (Z.land v 7) Hm).
  unfold tokens.
  rewrite !has_flag_nic, !has_flag_address, !has_flag_route.
  now rewrite !named_bit_of_mask by lia.
Qed.

(** X4: what the rendering tells: it is "None" for [kNone] only; it is empty
    exactly for the non-zero values without a named bit; and when a named
    bit is set the other bits of the value play no part. *)
Theorem to_string_reading (v : NetworkChangeEvent) :
  (to_string v = "None"%string <-> v = kNone) /\
  (to_string v = ""%string <->
   v <> kNone /\
   op_and v (op_or kNicChanged (op_or kAddressChanged kRouteChanged)) = kNone)
  /\
  (op_and v (op_or kNicChanged (op_or kAddressChanged kRouteChanged)) <> kNone
   -> to_string v
      = to_string
          (op_and v (op_or kNicChanged (op_or kAddressChanged kRouteChanged)))).
Proof.
  split; [apply to_string_none_iff|].
  split; [apply to_string_empty_iff|apply to_string_masked].
Qed.

Lemma to_string_reading_witness :
  to_string 13 = to_string 5.
Proof.
  apply (proj2 (proj2 (to_string_reading 13))). discriminate.
Defined.

End EventExtra.

(** ** More on the walk and on the receive loop *)

Module MonitorExtra.
Import Event Netlink Monitor Samples.
Import EventFacts LoadFacts WalkFacts StepFacts AgreeFacts RecordFacts.
Import CallFacts AlignedFacts EventExtra.

Lemma table_flag_named ty : Z.land (table_flag ty) 7 = table_flag ty.
Proof.
  unfold table_flag.
  repeat match goal with |- context [if ?b then _ else _] => destruct b end;
    reflexivity.
Qed.

Lemma union_flags_named tys : Z.land (union_flags tys) 7 = union_flags tys.
Proof.
  induction tys as [|ty tys IH]; [reflexivity|].
  rewrite union_flags_cons. unfold op_or.
  now rewrite Z.land_lor_distr_l, table_flag_named, IH.
Qed.

Lemma table_flag_bits ty :
  Z.testbit (table_flag ty) 0 = (ty =? RTM_NEWLINK) /\
  Z.testbit (table_flag ty) 1 = (ty =? RTM_NEWADDR) || (ty =? RTM_DELADDR) /\
  Z.testbit (table_flag ty) 2 = (ty =? RTM_NEWROUTE) || (ty =? RTM_DELROUTE).
Proof.
  unfold table_flag.
  destruct (Z.eqb_spec ty RTM_NEWLINK) as [->|H1]; [repeat split|].
  destruct (Z.eqb_spec ty RTM_NEWADDR) as [->|H2]; [repeat split|].
  destruct (Z.eqb_spec ty RTM_DELADDR) as [->|H3]; [repeat split|].
  destruct (Z.eqb_spec ty RTM_NEWROUTE) as [->|H4]; [repeat split|].
  destruct (Z.eqb_spec ty RTM_DELROUTE) as [->|H5]; repeat split.
Qed.

Lemma union_flags_bits tys :
  has_flag (union_flags tys) kNicChanged
  = existsb (fun ty => ty =? RTM_NEWLINK) tys /\
  has_flag (union_flags tys) kAddressChanged
  = existsb (fun ty => (ty =? RTM_NEWADDR) || (ty =? RTM_DELADDR)) tys /\
  has_flag (union_flags tys) kRouteChanged
  = existsb (fun ty => (ty =? RTM_NEWROUTE) || (ty =? RTM_DELROUTE)) tys.
Proof.
  rewrite has_flag_nic, has_flag_address, has_flag_route.
  induction tys as [|ty tys [IH0 [IH1 IH2]]]; [repeat split|].
  rewrite union_flags_cons. unfold op_or. rewrite !Z.lor_spec.
  destruct (table_flag_bits ty) as [E0 [E1 E2]].
  cbn [existsb]. rewrite E0, E1, E2, IH0, IH1, IH2. repeat split.
Qed.

Lemma load_bytes_readable buf off n :
  (0 < n)%nat -> 0 <= off -> off + Z.of_nat n <= Z.of_nat (length buf) ->
  exists bs, load_bytes buf off n = Some bs.
Proof.
  intros Hn Hoff Hin. eexists. apply load_bytes_spec; [assumption|].
  repeat split; assumption.
Qed.

Lemma nlmsg_len_readable buf msg :
  0 <= msg -> msg + 4 <= Z.of_nat (length buf) ->
  exists l, nlmsg_len buf msg = Some l.
Proof.
  intros H0 H4. unfold nlmsg_len, load_u32.
  destruct (load_bytes_readable buf msg 4) as [bs ->]; try lia.
  simpl. eauto.
Qed.

Lemma nlmsg_type_readable buf msg :
  0 <= msg -> msg + 6 <= Z.of_nat (length buf) ->
  exists ty, nlmsg_type buf msg = Some ty.
Proof.
  intros H0 H6. unfold nlmsg_type, load_u16.
  destruct (load_bytes_readable buf (msg + 4) 2) as [bs ->]; try lia.
  simpl. eauto.
Qed.

Lemma nlmsgerr_error_unreadable buf msg :
  0 <= msg -> nlmsgerr_error buf msg = None ->
  Z.of_nat (length buf) < msg + 20.
Proof.
  intros H0 H. destruct (Z.lt_ge_cases (Z.of_nat (length buf)) (msg + 20))
    as [|Hin]; [assumption|exfalso].
  destruct (nlmsgerr_error_inside buf msg 20) as [err E]; try lia.
  congruence.
Qed.


(** X5: a value returned by [WaitForChangeEvent] is made of the three named
    flags only, at least one of them; so [to_string] renders it as a list of
    tokens, never as "None" nor as the empty string. *)
Theorem returned_value_named (buf : buffer) (sock : socket)
    (ev : NetworkChangeEvent) (pending : socket) :
  WaitForChangeEvent buf sock = Returned ev pending ->
  1 <= ev <= 7 /\
  ev = of_flags (has_flag ev kNicChanged) (has_flag ev kAddressChanged)
         (has_flag ev kRouteChanged) /\
  (to_string ev = "None"%string -> False) /\
  (to_string ev = ""%string -> False).
Proof.
  intros H. unfold WaitForChangeEvent in H.
  pose proof (returned_last_cycle _ _ _ _ H) as [Hnz _].
  apply returned_is_union in H. change (op_or kNone ?x) with x in H.
  assert (Hm : Z.land ev 7 = ev) by (rewrite H; apply union_flags_named).
  pose proof (named_bits_range ev Hm) as Hr. unfold kNone in Hnz.
  clear H.
  split; [lia|]. split; [|split].
  - assert (E : ev = 1 \/ ev = 2 \/ ev = 3 \/ ev = 4 \/ ev = 5 \/ ev = 6
                \/ ev = 7) by lia.
    repeat (destruct E as [->|E]); try subst ev; reflexivity.
  - intros E. apply to_string_none_iff in E. contradiction.
  - intros E. apply to_string_empty_iff in E as [_ E]. congruence.
Qed.

Lemma returned_value_named_witness :
  1 <= op_or kNicChanged kRouteChanged <= 7.
Proof.
  apply (returned_value_named zero_buffer
           [Received (concat [new_link; noop; new_route])]
           (op_or kNicChanged kRouteChanged) []).
  vm_compute. reflexivity.
Defined.

(** X6: each flag of a returned value stands for a record of its types among
    those the call classified: the interface flag is set exactly when a
    NEW-LINK record was classified, the address flag exactly when a NEW-ADDR
    or DEL-ADDR record was, the route flag exactly when a NEW-ROUTE or
    DEL-ROUTE record was. *)
Theorem returned_flags_by_type (buf : buffer) (sock : socket)
    (ev : NetworkChangeEvent) (pending : socket) :
  WaitForChangeEvent buf sock = Returned ev pending ->
  has_flag ev kNicChanged
  = existsb (fun ty => ty =? RTM_NEWLINK) (wait_types buf kNone sock) /\
  has_flag ev kAddressChanged
  = existsb (fun ty => (ty =? RTM_NEWADDR) || (ty =? RTM_DELADDR))
      (wait_types buf kNone sock) /\
  has_flag ev kRouteChanged
  = existsb (fun ty => (ty =? RTM_NEWROUTE) || (ty =? RTM_DELROUTE))
      (wait_types buf kNone sock).
Proof.
  intros H. unfold WaitForChangeEvent in H.
  apply returned_is_union in H. change (op_or kNone ?x) with x in H.
  rewrite H. apply union_flags_bits.
Qed.

Lemma returned_flags_by_type_witness :
  has_flag kAddressChanged kNicChanged
  = existsb (fun ty => ty =? RTM_NEWLINK)
      (wait_types zero_buffer kNone
         [Received (record_of RTM_DELLINK [] ++ record_of RTM_DELADDR []
                    ++ done)]).
Proof.
  apply (returned_flags_by_type zero_buffer
           [Received (record_of RTM_DELLINK [] ++ record_of RTM_DELADDR []
                      ++ done)]
           kAddressChanged []).
  vm_compute. reflexivity.
Defined.

(** X7: while the receive cycles of a call have all left the accumulator at
    [kNone], a receive that fails ends the call with that failure, and a
    socket that brings nothing more leaves the call suspended; in neither
    case is a value returned. *)
Theorem receive_failure_ends_call (buf : buffer) (sock : socket)
    (buf1 : buffer) (sock1 : socket) :
  receives buf sock buf1 sock1 ->
  (forall ec pending,
      sock1 = ReceiveError ec :: pending ->
      WaitForChangeEvent buf sock = ReceiveFailed ec) /\
  (sock1 = [] -> WaitForChangeEvent buf sock = Suspended).
Proof.
  intros Hr. apply receives_wait in Hr as [E _].
  unfold WaitForChangeEvent. rewrite E. split.
  - intros ec pending ->. reflexivity.
  - intros ->. reflexivity.
Qed.

Lemma receive_failure_ends_call_witness :
  WaitForChangeEvent zero_buffer
    [Received (noop ++ done); ReceiveError 104; Received new_link]
  = ReceiveFailed 104.
Proof.
  refine (proj1 (receive_failure_ends_call zero_buffer
                   [Received (noop ++ done); ReceiveError 104;
                    Received new_link]
                   (fst (async_receive zero_buffer (noop ++ done)))
                   [ReceiveError 104; Received new_link] _)
            104 [Received new_link] eq_refl).
  apply (receives_again _ _ zero_buffer _ (noop ++ done) _ 32).
  - apply receives_first.
  - vm_compute. reflexivity.
  - vm_compute. reflexivity.
Defined.

(** X8: a datagram shorter than a header, the empty one included, is passed
    over without a look at its bytes: the accumulator stays as it is, and a
    call that starts with such a datagram goes on as a call on the rest of
    the socket. *)
Theorem short_datagram_skipped (buf : buffer) (dgram : list byte)
    (pending : socket) (ev : NetworkChangeEvent) :
  (length dgram < Z.to_nat sizeof_nlmsghdr)%nat ->
  walk (fst (async_receive buf dgram)) 0 (snd (async_receive buf dgram)) ev
  = WalkEnd ev /\
  walk_types (fst (async_receive buf dgram)) 0 (snd (async_receive buf dgram))
  = [] /\
  WaitForChangeEvent buf (Received dgram :: pending)
  = WaitForChangeEvent (fst (async_receive buf dgram)) pending /\
  (dgram = [] -> fst (async_receive buf dgram) = buf).
Proof.
  intros Hshort.
  destruct (async_receive_length buf dgram) as [_ [_ Hlen]].
  assert (Hok : forall b, NLMSG_OK b 0 (snd (async_receive buf dgram))
                          = Some false).
  { intros b. unfold NLMSG_OK.
    destruct (Z.geb_spec (snd (async_receive buf dgram)) sizeof_nlmsghdr)
      as [Hge|_]; [exfalso|reflexivity].
    change (Z.to_nat sizeof_nlmsghdr) with 16%nat in Hshort.
    unfold sizeof_nlmsghdr in Hge. lia. }
  assert (Hw : forall e,
             walk (fst (async_receive buf dgram)) 0
               (snd (async_receive buf dgram)) e = WalkEnd e)
    by (intros e; apply walk_stops_at_bad_record, Hok).
  split; [apply Hw|]. split; [|split].
  - rewrite walk_types_unfold. unfold iteration. now rewrite Hok.
  - unfold WaitForChangeEvent.
    rewrite (wait_loop_received buf kNone dgram pending _ _
               (surjective_pairing _)), Hw.
    reflexivity.
  - intros ->. reflexivity.
Qed.

Lemma short_datagram_skipped_witness :
  WaitForChangeEvent zero_buffer
    [Received (firstn 15 new_link); Received new_route]
  = WaitForChangeEvent
      (fst (async_receive zero_buffer (firstn 15 new_link)))
      [Received new_route].
Proof.
  apply (short_datagram_skipped zero_buffer (firstn 15 new_link)
           [Received new_route] kNone).
  vm_compute. lia.
Defined.

(** X9: a record that fails the check of [NLMSG_OK] (fewer than 16 bytes
    are left, or it declares fewer than 16 bytes, or more than are left)
    ends the walk without an error, and the flags of the records classified
    before it are kept. *)
Theorem bad_record_keeps_flags (buf : buffer) (len0 : Z)
    (ev0 : NetworkChangeEvent) (tys : list Z) (msg len : Z)
    (ev : NetworkChangeEvent) :
  reaches buf (0, len0, ev0) tys (msg, len, ev) ->
  len < sizeof_nlmsghdr \/
  (exists l, nlmsg_len buf msg = Some l /\ (l < sizeof_nlmsghdr \/ len < l)) ->
  walk buf 0 len0 ev0 = WalkEnd (op_or ev0 (union_flags tys)) /\
  walk_types buf 0 len0 = tys.
Proof.
  intros Hreach Hbad.
  assert (Hok : NLMSG_OK buf msg len = Some false).
  { unfold NLMSG_OK.
    destruct (Z.geb_spec len sizeof_nlmsghdr) as [Hlen|Hlen]; [|reflexivity].
    destruct Hbad as [Hs|[l [Hl Hbad]]]; [lia|].
    rewrite Hl. f_equal. lia. }
  destruct (reaches_walk _ _ _ _ _ _ _ _ Hreach) as [Ew [Et Ev]].
  rewrite Ew, Et, walk_stops_at_bad_record, Ev by assumption.
  split; [reflexivity|].
  rewrite walk_types_unfold. unfold iteration. rewrite Hok.
  apply app_nil_r.
Qed.

Lemma bad_record_keeps_flags_witness :
  walk (new_link ++ le_bytes 4 64 ++ le_bytes 2 RTM_NEWROUTE
          ++ repeat x00 10) 0 32 kNone
  = WalkEnd kNicChanged.
Proof.
  refine (proj1 (bad_record_keeps_flags
                   (new_link ++ le_bytes 4 64 ++ le_bytes 2 RTM_NEWROUTE
                      ++ repeat x00 10)
                   32 kNone [RTM_NEWLINK] 16 16 kNicChanged _ _)).
  - apply (reaches_next _ (0, 32, kNone) (0, 32, kNone) _ [] RTM_NEWLINK).
    + apply reaches_here.
    + vm_compute. reflexivity.
  - right. exists 64. split; [reflexivity|]. right. lia.
Defined.

(** X10: a walk only adds flags: every flag that is in the accumulator when
    the walk starts is in it when the walk ends. *)
Theorem walk_keeps_flags (buf : buffer) (msg len : Z)
    (ev ev' f : NetworkChangeEvent) :
  walk buf msg len ev = WalkEnd ev' ->
  op_and ev' ev = ev /\
  (has_flag ev f = true -> has_flag ev' f = true).
Proof.
  intros H. apply walk_end_union in H. subst ev'.
  unfold has_flag, op_and, op_or. split.
  - apply Z.bits_inj'. intros n Hn. rewrite Z.land_spec, Z.lor_spec.
    destruct (Z.testbit ev n); [reflexivity|apply andb_false_r].
  - intros Hf. apply Z.eqb_eq in Hf. apply Z.eqb_eq.
    apply Z.bits_inj'. intros n Hn.
    assert (E : Z.testbit (Z.land ev f) n = Z.testbit f n) by now rewrite Hf.
    rewrite Z.land_spec in E. rewrite Z.land_spec, Z.lor_spec.
    destruct (Z.testbit ev n), (Z.testbit f n),
      (Z.testbit (union_flags (walk_types buf msg len)) n);
      simpl in *; congruence.
Qed.

Lemma walk_keeps_flags_witness :
  op_and (op_or kAddressChanged kRouteChanged) kAddressChanged
  = kAddressChanged.
Proof.
  refine (proj1 (walk_keeps_flags (new_route ++ done) 0 32 kAddressChanged
                   (op_or kAddressChanged kRouteChanged) kNone _)).
  reflexivity.
Defined.


(** How a walk over a length that is a multiple of the alignment can end. *)
Lemma aligned_walk_outcome buf len0 ev0 :
  Z.of_nat (length buf) <= kRecvBufferSize ->
  0 <= len0 <= Z.of_nat (length buf) ->
  len0 mod 4 = 0 ->
  (exists e, walk buf 0 len0 ev0 = WalkEnd e) \/
  (exists err, walk buf 0 len0 ev0 = WalkThrow err) \/
  (walk buf 0 len0 ev0 = WalkOutOfBounds /\
   exists tys msg len ev,
     reaches buf (0, len0, ev0) tys (msg, len, ev) /\
     NLMSG_OK buf msg len = Some true /\
     nlmsg_type buf msg = Some NLMSG_ERROR /\
     Z.of_nat (length buf) < msg + 20).
Proof.
  unfold kRecvBufferSize. intros Hcap Hlen0 Hal.
  destruct (walk_reaches_end buf 0 len0 ev0)
    as [tys [msg [len [ev [Hreach Hn]]]]].
  destruct (reaches_walk _ _ _ _ _ _ _ _ Hreach) as [Ew _]. rewrite Ew.
  destruct (aligned_walk_exact _ _ _ _ _ _ _ Hal ltac:(lia) Hreach)
    as [E1 [E2 E3]].
  pose proof (reaches_msg_le _ _ _ _ Hreach) as Hmsg. simpl in Hmsg.
  rewrite walk_unfold.
  destruct (NLMSG_OK buf msg len) as [[|]|] eqn:Hok.
  - apply NLMSG_OK_true in Hok as Hok'.
    destruct Hok' as [l [Hl [H16 [Hle H16']]]]. unfold sizeof_nlmsghdr in *.
    destruct (nlmsg_type_readable buf msg) as [ty Hty]; try lia.
    destruct (Z.eq_dec ty NLMSG_DONE) as [->|Hd].
    + rewrite dispatch_done by assumption. left. eauto.
    + destruct (Z.eq_dec ty NLMSG_ERROR) as [->|He].
      * rewrite dispatch_error by assumption.
        destruct (nlmsgerr_error buf msg) as [err|] eqn:Herr.
        -- right. left. eauto.
        -- right. right. split; [reflexivity|].
           exists tys, msg, len, ev. repeat split; auto.
           now apply nlmsgerr_error_unreadable.
      * exfalso.
        assert (Hadv : NLMSG_ALIGN l <> 0).
        { pose proof (NLMSG_ALIGN_round l).
          change (2 ^ 32) with 4294967296 in *. lia. }
        rewrite (iteration_intro _ _ _ _ ty l) in Hn by assumption.
        discriminate.
  - left. eauto.
  - exfalso. unfold NLMSG_OK in Hok.
    destruct (Z.geb_spec len sizeof_nlmsghdr) as [Hge|]; [|discriminate].
    unfold sizeof_nlmsghdr in Hge.
    destruct (nlmsg_len_readable buf msg) as [l Hl]; try lia.
    rewrite Hl in Hok. discriminate.
Qed.

Lemma aligned_call_never_spins sock : forall buf ev,
  length buf = Z.to_nat kRecvBufferSize ->
  Forall whole_words sock ->
  wait_loop buf ev sock <> Spins.
Proof.
  induction sock as [|[dgram|ec] sock IH]; intros buf ev Hlen Hall;
    try discriminate.
  inversion Hall as [|c sock' Hd Hall']; subst. simpl in Hd.
  change NLMSG_ALIGNTO with 4 in Hd.
  destruct (async_receive_length buf dgram) as [L1 [L2 L3]].
  destruct (async_receive buf dgram) as [buf1 n] eqn:E.
  simpl in L1, L2, L3.
  rewrite (wait_loop_received _ _ _ _ _ _ E).
  assert (Hn : n mod 4 = 0).
  { assert (n = Z.of_nat (Nat.min (length dgram) (length buf))) as ->
      by (unfold async_receive in E; now injection E as _ <-).
    destruct (Nat.min_spec (length dgram) (length buf)) as [[_ ->]|[_ ->]];
      [assumption|rewrite Hlen; reflexivity]. }
  assert (Hcap : Z.of_nat (length buf1) <= kRecvBufferSize)
    by (rewrite L1, Hlen; vm_compute; discriminate).
  destruct (aligned_walk_outcome buf1 n ev Hcap ltac:(lia) Hn)
    as [[e ->]|[[err ->]|[-> _]]]; try discriminate.
  destruct (e =? kNone); [|discriminate].
  apply IH; [congruence|assumption].
Qed.

(** X11: when the received length is a multiple of the alignment, the walk
    neither repeats an iteration for ever nor leaves the array, save for one
    read: that of the error field of an ERROR record lying less than 20
    bytes before the end of the array.  A call on an array of the capacity
    that receives only datagrams of such lengths is never caught in the
    walk. *)
Theorem aligned_walk_safe (buf : buffer) (len0 : Z)
    (ev0 : NetworkChangeEvent) (sock : socket) :
  length buf = Z.to_nat kRecvBufferSize ->
  0 <= len0 <= Z.of_nat (length buf) ->
  len0 mod NLMSG_ALIGNTO = 0 ->
  (walk buf 0 len0 ev0 = WalkSpins -> False) /\
  (walk buf 0 len0 ev0 = WalkOutOfBounds ->
   exists tys msg len ev,
     reaches buf (0, len0, ev0) tys (msg, len, ev) /\
     NLMSG_OK buf msg len = Some true /\
     nlmsg_type buf msg = Some NLMSG_ERROR /\
     Z.of_nat (length buf) < msg + 20) /\
  (Forall whole_words sock -> WaitForChangeEvent buf sock = Spins -> False).
Proof.
  intros Hlen Hlen0 Hal.
  assert (Hcap : Z.of_nat (length buf) <= kRecvBufferSize)
    by (rewrite Hlen; vm_compute; discriminate).
  destruct (aligned_walk_outcome buf len0 ev0 Hcap Hlen0 Hal)
    as [[e E]|[[err E]|[E H]]]; rewrite E.
  - split; [discriminate|]. split; [discriminate|].
    intros Hall. now apply aligned_call_never_spins.
  - split; [discriminate|]. split; [discriminate|].
    intros Hall. now apply aligned_call_never_spins.
  - split; [discriminate|]. split; [intros _; exact H|].
    intros Hall. now apply aligned_call_never_spins.
Qed.

Lemma aligned_walk_safe_witness :
  exists tys msg len ev,
    reaches (fst (async_receive zero_buffer
                    (concat (repeat noop 255) ++ record_of NLMSG_ERROR [])))
      (0, 4096, kNone) tys (msg, len, ev) /\
    NLMSG_OK (fst (async_receive zero_buffer
                     (concat (repeat noop 255) ++ record_of NLMSG_ERROR [])))
      msg len = Some true /\
    nlmsg_type (fst (async_receive zero_buffer
                       (concat (repeat noop 255)
                          ++ record_of NLMSG_ERROR [])))
      msg = Some NLMSG_ERROR /\
    4096 < msg + 20.
Proof.
  refine (proj1 (proj2 (aligned_walk_safe
                          (fst (async_receive zero_buffer
                                  (concat (repeat noop 255)
                                     ++ record_of NLMSG_ERROR [])))
                          4096 kNone [] _ _ _)) _).
  - vm_compute. reflexivity.
  - vm_compute. split; discriminate.
  - reflexivity.
  - vm_compute. reflexivity.
Defined.

Lemma returned_suffix sock : forall buf ev0 ev pending,
  wait_loop buf ev0 sock = Returned ev pending ->
  exists consumed,
    sock = consumed ++ pending /\ consumed <> [] /\
    Forall (fun c => match c with
                     | Received _ => True
                     | ReceiveError _ => False
                     end) consumed.
Proof.
  induction sock as [|[dgram|ec] sock IH]; intros buf ev0 ev pending H;
    try discriminate.
  destruct (async_receive buf dgram) as [buf' len] eqn:E.
  rewrite (wait_loop_received _ _ _ _ _ _ E) in H.
  destruct (walk buf' 0 len ev0) as [ev'| | |]; try discriminate.
  destruct (ev' =? kNone).
  - apply IH in H as [consumed [-> [_ Hall]]].
    exists (Received dgram :: consumed).
    split; [reflexivity|]. split; [discriminate|]. now constructor.
  - injection H as <- <-. exists [Received dgram].
    split; [reflexivity|]. split; [discriminate|]. now repeat constructor.
Qed.

(** X12: a call that returns has taken at least one datagram and only
    datagrams from the front of the socket, and leaves the rest as it was;
    so two calls in a row take two adjoining stretches of datagrams. *)
Theorem returned_consumes_front (bufA bufB : buffer) (sock : socket)
    (evA evB : NetworkChangeEvent) (pendingA pendingB : socket) :
  WaitForChangeEvent bufA sock = Returned evA pendingA ->
  (exists consumed,
      sock = consumed ++ pendingA /\ consumed <> [] /\
      Forall (fun c => match c with
                       | Received _ => True
                       | ReceiveError _ => False
                       end) consumed) /\
  (WaitForChangeEvent bufB pendingA = Returned evB pendingB ->
   exists first second,
     sock = first ++ second ++ pendingB /\ first <> [] /\ second <> []).
Proof.
  unfold WaitForChangeEvent. intros HA.
  apply returned_suffix in HA as HA'. split; [exact HA'|].
  intros HB. apply returned_suffix in HB as [second [-> [Hs _]]].
  destruct HA' as [first [-> [Hf _]]]. exists first, second. auto.
Qed.

Lemma returned_consumes_front_witness :
  exists consumed,
    [Received (noop ++ done); Received (new_link ++ done);
     Received (new_route ++ done)]
    = consumed ++ [Received (new_route ++ done)] /\ consumed <> [] /\
    Forall (fun c => match c with
                     | Received _ => True
                     | ReceiveError _ => False
                     end) consumed.
Proof.
  refine (proj1 (returned_consumes_front zero_buffer zero_buffer
                   [Received (noop ++ done); Received (new_link ++ done);
                    Received (new_route ++ done)]
                   kNicChanged kNone [Received (new_route ++ done)] [] _)).
  vm_compute. reflexivity.
Defined.

(** X13: the value a call returns is the outcome of the walk over one
    datagram, the last one it received, started from [kNone]: the flags
    returned are those of the records classified in that datagram, and no
    datagram received before it has added a flag. *)
Theorem returned_from_last_datagram (buf : buffer) (sock : socket)
    (ev : NetworkChangeEvent) (pending : socket) :
  WaitForChangeEvent buf sock = Returned ev pending ->
  exists buf1 dgram,
    receives buf sock buf1 (Received dgram :: pending) /\
    walk (fst (async_receive buf1 dgram)) 0 (snd (async_receive buf1 dgram))
      kNone = WalkEnd ev /\
    ev = union_flags
           (walk_types (fst (async_receive buf1 dgram)) 0
              (snd (async_receive buf1 dgram))) /\
    exists before,
      wait_types buf kNone sock
      = before ++ walk_types (fst (async_receive buf1 dgram)) 0
                    (snd (async_receive buf1 dgram)) /\
      union_flags before = kNone.
Proof.
  intros H. unfold WaitForChangeEvent in H.
  destruct (returned_last_cycle _ _ _ _ H) as [Hnz [buf1 [dgram [Hr Hw]]]].
  exists buf1, dgram. split; [exact Hr|]. split; [exact Hw|].
  split; [apply walk_end_union in Hw; exact Hw|].
  destruct (receives_wait _ _ _ _ Hr) as [_ [before [E1 E2]]].
  exists before. split; [|exact E2].
  rewrite E1, (wait_types_received _ _ _ _ _ _ (surjective_pairing _)), Hw.
  rewrite (proj2 (Z.eqb_neq _ _) Hnz). now rewrite app_nil_r.
Qed.

Lemma returned_from_last_datagram_witness :
  exists buf1 dgram,
    receives zero_buffer
      [Received (noop ++ done); Received (new_route ++ done)]
      buf1 (Received dgram :: []) /\
    walk (fst (async_receive buf1 dgram)) 0 (snd (async_receive buf1 dgram))
      kNone = WalkEnd kRouteChanged /\
    kRouteChanged
    = union_flags
        (walk_types (fst (async_receive buf1 dgram)) 0
           (snd (async_receive buf1 dgram))) /\
    exists before,
      wait_types zero_buffer kNone
        [Received (noop ++ done); Received (new_route ++ done)]
      = before ++ walk_types (fst (async_receive buf1 dgram)) 0
                    (snd (async_receive buf1 dgram)) /\
      union_flags before = kNone.
Proof.
  apply (returned_from_last_datagram zero_buffer
           [Received (noop ++ done); Received (new_route ++ done)]
           kRouteChanged []).
  vm_compute. reflexivity.
Defined.

Lemma union_flags_unlisted (rs : list (list byte)) :
  Forall (fun r => table_flag (type_of r) = kNone) rs ->
  union_flags (map type_of rs) = kNone.
Proof.
  induction 1 as [|r rs Hr _ IH]; [reflexivity|].
  cbn [map]. rewrite union_flags_cons, Hr, IH. reflexivity.
Qed.

(** X14: a datagram made of whole records whose types are not among the five
    of the [switch] (a DEL-LINK record, for one) is passed over: the call
    goes on as a call on the rest of the socket. *)
Theorem unlisted_types_skipped (buf : buffer) (rs : list (list byte))
    (pending : socket) :
  length buf = Z.to_nat kRecvBufferSize ->
  (length (concat rs) <= length buf)%nat ->
  Forall (fun r => ordinary r = true) rs ->
  Forall (fun r => table_flag (type_of r) = kNone) rs ->
  WaitForChangeEvent buf (Received (concat rs) :: pending)
  = WaitForChangeEvent (fst (async_receive buf (concat rs))) pending.
Proof.
  intros Hlen Hfit Hall Hnone. unfold WaitForChangeEvent.
  assert (Hsize : Z.of_nat (length buf) < 2 ^ 64)
    by (rewrite Hlen; vm_compute; reflexivity).
  rewrite (wait_loop_received buf kNone (concat rs) pending _ _
             (surjective_pairing _)).
  rewrite (MonitorFacts.walk_received_records buf rs kNone Hsize Hfit Hall).
  rewrite (union_flags_unlisted rs Hnone). reflexivity.
Qed.

Lemma unlisted_types_skipped_witness :
  WaitForChangeEvent zero_buffer
    [Received (concat [record_of RTM_DELLINK []; noop]); Received new_addr]
  = WaitForChangeEvent
      (fst (async_receive zero_buffer
              (concat [record_of RTM_DELLINK []; noop])))
      [Received new_addr].
Proof.
  apply (unlisted_types_skipped zero_buffer
           [record_of RTM_DELLINK []; noop] [Received new_addr]).
  - reflexivity.
  - vm_compute. lia.
  - repeat constructor.
  - repeat constructor.
Defined.


Lemma nlmsgerr_error_inside_range pre r post err :
  nlmsgerr_error r 0 = Some err ->
  nlmsgerr_error (pre ++ r ++ post) (Z.of_nat (length pre)) = Some err.
Proof.
  unfold nlmsgerr_error, load_int, NLMSG_DATA. change NLMSG_HDRLEN with 16.
  intros H.
  destruct (load_bytes r (0 + 16) 4) as [bs|] eqn:E; [|discriminate].
  apply (load_bytes_inside pre r post) in E; [|lia].
  replace (Z.of_nat (length pre) + (0 + 16))
    with (Z.of_nat (length pre) + 16) in E by lia.
  now rewrite E.
Qed.

(** A whole record at the loop head passes [NLMSG_OK]. *)
Lemma record_passes pre r post len :
  well_formed r = true ->
  Z.of_nat (length r) <= len ->
  NLMSG_OK (pre ++ r ++ post) (Z.of_nat (length pre)) len = Some true /\
  nlmsg_type (pre ++ r ++ post) (Z.of_nat (length pre)) = Some (type_of r).
Proof.
  intros Hwf Hlen.
  apply well_formed_inv in Hwf as [l [ty [Hl [Hty [Et [Hr Hal]]]]]].
  unfold sizeof_nlmsghdr in *. split.
  - unfold NLMSG_OK. rewrite (nlmsg_len_inside_range pre r post l Hl).
    unfold sizeof_nlmsghdr.
    replace (len >=? 16) with true by lia. f_equal. lia.
  - rewrite Et. now apply nlmsg_type_inside_range.
Qed.

Lemma walk_is_classify rs : forall pre post ev,
  Forall (fun r => well_formed r = true) rs ->
  Forall (fun r => type_of r = NLMSG_ERROR -> (20 <= length r)%nat) rs ->
  Z.of_nat (length (concat rs)) < 2 ^ 64 ->
  walk (pre ++ concat rs ++ post) (Z.of_nat (length pre))
    (Z.of_nat (length (concat rs))) ev
  = Records.classify rs ev.
Proof.
  induction rs as [|r rs IH]; intros pre post ev Hwf Herr Hsize.
  - simpl. now rewrite walk_unfold.
  - inversion Hwf as [|r' rs' Hr Hrs]; subst.
    inversion Herr as [|r' rs' He Hes]; subst.
    cbn [concat Records.classify] in *.
    rewrite length_app, Nat2Z.inj_add in *. rewrite <- (app_assoc r).
    destruct (record_passes pre r (concat rs ++ post)
                (Z.of_nat (length r) + Z.of_nat (length (concat rs))) Hr)
      as [Hok Hty]; [lia|].
    destruct (Z.eqb_spec (type_of r) NLMSG_DONE) as [Ed|Hnd].
    + rewrite Ed in Hty. now apply walk_at_done.
    + destruct (Z.eqb_spec (type_of r) NLMSG_ERROR) as [Ee|Hne].
      * rewrite Ee in Hty.
        destruct (walk_at_error _ _ _ ev Hok Hty) as [-> _].
        specialize (He Ee).
        destruct (nlmsgerr_error_inside r 0 (Z.of_nat (length r)))
          as [err E]; try lia.
        rewrite E.
        now rewrite (nlmsgerr_error_inside_range pre r _ err E).
      * assert (Hord : ordinary r = true).
        { unfold ordinary. rewrite Hr.
          rewrite (proj2 (Z.eqb_neq _ _) Hnd), (proj2 (Z.eqb_neq _ _) Hne).
          reflexivity. }
        pose proof (iteration_record pre r (concat rs ++ post)
                      (Z.of_nat (length r) + Z.of_nat (length (concat rs)))
                      ev Hord ltac:(lia)) as Hit.
        replace (Z.of_nat (length r) + Z.of_nat (length (concat rs))
                 - Z.of_nat (length r))
          with (Z.of_nat (length (concat rs))) in Hit by lia.
        destruct (walk_iteration _ _ _ _ _ _ _ _ Hit) as [-> _].
        replace (pre ++ r ++ concat rs ++ post)
          with ((pre ++ r) ++ concat rs ++ post) by (now rewrite <- app_assoc).
        apply IH; auto. lia.
Qed.

(** X16: the walk over a received datagram that fits the array and is made
    of whole records is the pass over its records in order: a DONE record
    ends it with the flags gathered so far, an ERROR record (one that holds
    its error field) ends it with that error, every other record adds the
    flag of its type, and after the last record the walk ends. *)
Theorem walk_by_records (buf : buffer) (rs : list (list byte))
    (ev : NetworkChangeEvent) :
  length buf = Z.to_nat kRecvBufferSize ->
  (length (concat rs) <= length buf)%nat ->
  Forall (fun r => well_formed r = true) rs ->
  Forall (fun r => type_of r = NLMSG_ERROR -> (20 <= length r)%nat) rs ->
  walk (fst (async_receive buf (concat rs))) 0
    (snd (async_receive buf (concat rs))) ev
  = Records.classify rs ev.
Proof.
  intros Hlen Hfit Hwf Herr. rewrite async_receive_fits by assumption. simpl.
  apply (walk_is_classify rs [] (skipn (length (concat rs)) buf) ev Hwf Herr).
  rewrite Hlen in Hfit.
  change (Z.to_nat kRecvBufferSize) with 4096%nat in Hfit. lia.
Qed.

Lemma walk_by_records_witness :
  walk (fst (async_receive zero_buffer
               (concat [new_addr; noop; error_13; new_route])))
    0 (snd (async_receive zero_buffer
              (concat [new_addr; noop; error_13; new_route])))
    kNone
  = WalkThrow 13.
Proof.
  refine (walk_by_records zero_buffer [new_addr; noop; error_13; new_route]
            kNone _ _ _ _).
  - reflexivity.
  - vm_compute. lia.
  - repeat constructor.
  - repeat (apply Forall_cons;
            [intros H; try (vm_compute in H; discriminate H); vm_compute; lia|]).
    apply Forall_nil.
Defined.

End MonitorExtra.

(** ** Construction and destruction *)

Module LifecycleFacts.
Import Lifecycle.

(** X15: the constructor attempts [bind] only after [open] has succeeded,
    with an address of family [AF_NETLINK], port id 0 and the five groups
    link, IPv4 address, IPv4 route, IPv6 address, IPv6 route and no other;
    it throws the error of the first step that fails; and over the life of
    a monitor the log holds "network monitor initialized" followed by
    "network monitor destroyed" when construction succeeds, and nothing
    when it throws. *)
Theorem monitor_lifetime (sys : system) :
  (forall sa, In (SocketBind sa) (fst (construct sys)) ->
     open_error sys AF_NETLINK NETLINK_ROUTE = None /\
     nl_family sa = AF_NETLINK /\ nl_pid sa = 0 /\ nl_pad sa = 0 /\
     forall n, Z.testbit (nl_groups sa) n = true <-> In n [0; 4; 6; 8; 10]) /\
  snd (construct sys)
  = match open_error sys AF_NETLINK NETLINK_ROUTE with
    | Some ec => Some ec
    | None => bind_error sys monitor_address
    end /\
  log_lines (lifetime sys)
  = match snd (construct sys) with
    | None => ["network monitor initialized"%string;
               "network monitor destroyed"%string]
    | Some _ => []
    end.
Proof.
  assert (Hbits : forall n, Z.testbit (nl_groups monitor_address) n = true
                            <-> In n [0; 4; 6; 8; 10]).
  { intros n. change (nl_groups monitor_address) with 1361. split.
    - intros H. destruct (Z.ltb_spec n 0) as [Hneg|Hpos];
        [rewrite Z.testbit_neg_r in H by assumption; discriminate|].
      destruct (Z.ltb_spec n 11) as [Hlt|Hge].
      + assert (Hk : (Z.to_nat n < 11)%nat) by lia.
        rewrite <- (Z2Nat.id n Hpos) in H |- *.
        revert Hk H. generalize (Z.to_nat n) as k. intros k Hk H.
        do 11 (destruct k as [|k];
               [first [discriminate H | simpl; tauto]|]).
        lia.
      + rewrite Z.bits_above_log2 in H; [discriminate|lia|].
        change (Z.log2 1361) with 10. lia.
    - simpl. intros [<-|[<-|[<-|[<-|[<-|[]]]]]]; reflexivity. }
  unfold lifetime, construct.
  destruct (open_error sys AF_NETLINK NETLINK_ROUTE) as [ec|] eqn:Eo;
    [|destruct (bind_error sys monitor_address) as [ec|] eqn:Eb];
    (split; [|split; reflexivity]); intros sa H; simpl in H.
  - destruct H as [H|[]]. discriminate H.
  - destruct H as [H|[H|[]]]; [discriminate H|]. injection H as <-.
    repeat split; try reflexivity; apply Hbits.
  - destruct H as [H|[H|[H|[]]]]; [discriminate H| |discriminate H].
    injection H as <-. repeat split; try reflexivity; apply Hbits.
Qed.

End LifecycleFacts.
